(** * CrowdTangle collector and post model: a shallow embedding

    This development embeds the two Python modules of the repository,

    - [code/fb_model.py]   ([get_dict_val], [PostBase], [FbIgPost]) and
    - [code/ct_helpers.py] ([ct_get_posts], [download_posts]),

    and states the properties of the collector loop and of the field
    accessors as theorems about the embedded definitions.

    Conventions of the embedding.
    - Python values are the values [json.loads] produces: [None], booleans,
      integers, strings, lists and dictionaries with string keys.  JSON
      floating point numbers are outside the model.
    - A Python exception is a constructor of [exn]; a computation that may
      raise returns [res A].
    - The local variables of [download_posts] form the record [state]; the
      body of its [try] block is written in a state-and-exception monad in
      which the assignments made before an exception persist, as they do in
      Python.
    - The network is a list of replies, one per attempt of the loop, in the
      order in which the attempts are made.
    - [print] has no effect on the values computed and is left out;
      [time.sleep] is recorded in the field [slept] of the state. *)

From Stdlib Require Import ZArith List String Bool Lia QArith.
Import ListNotations.

Local Open Scope string_scope.
Local Open Scope Z_scope.

(** ** Python values and exceptions *)

Inductive exn : Type :=
| TypeError
| KeyError
| IndexError
| ValueError
| UnboundLocalError
| ConnectionError     (* requests.exceptions.ConnectionError, Timeout, ...:
                         whatever requests raises while it sends a request
                         and reads the answer *)
| URLRefused          (* MissingSchema, InvalidSchema, InvalidURL: requests
                         refuses the URL before it sends anything *)
| HTTPError           (* Response.raise_for_status *)
| JSONDecodeError.    (* Response.json on a body that is not JSON *)

Inductive res (A : Type) : Type :=
| Ok (a : A)
| Raise (e : exn).
Arguments Ok {A} a.
Arguments Raise {A} e.

Definition res_bind {A B : Type} (m : res A) (k : A -> res B) : res B :=
  match m with
  | Ok a => k a
  | Raise e => Raise e
  end.

Declare Scope res_scope.
Delimit Scope res_scope with res.
Notation "x <- m ;; k" := (res_bind m (fun x => k))
  (at level 61, m at next level, right associativity) : res_scope.

#[local] Set Warnings "-register-all".
Inductive pyval : Type :=
| PyNone
| PyBool (b : bool)
| PyInt (z : Z)
| PyStr (s : string)
| PyList (l : list pyval)
| PyDict (d : list (string * pyval)).

(** A dictionary keeps its keys in insertion order; a key occurs once. *)
Definition dict : Type := list (string * pyval).

Fixpoint dict_get (k : string) (d : dict) : option pyval :=
  match d with
  | [] => None
  | (k', v) :: d' => if String.eqb k k' then Some v else dict_get k d'
  end.

Definition dict_has (k : string) (d : dict) : bool :=
  match dict_get k d with Some _ => true | None => false end.

(** [d[k] = v]: the value of an existing key is replaced in place, a new key
    is appended. *)
Fixpoint dict_set (k : string) (v : pyval) (d : dict) : dict :=
  match d with
  | [] => [(k, v)]
  | (k', v') :: d' =>
      if String.eqb k k' then (k, v) :: d' else (k', v') :: dict_set k v d'
  end.

Definition dict_keys (d : dict) : list string := map fst d.
Definition dict_values (d : dict) : list pyval := map snd d.

Definition is_None (v : pyval) : bool :=
  match v with PyNone => true | _ => false end.

Definition isinstance_dict (v : pyval) : bool :=
  match v with PyDict _ => true | _ => false end.

Definition isinstance_list (v : pyval) : bool :=
  match v with PyList _ => true | _ => false end.

(** Truth value of an object, as tested by [if x:]. *)
Definition truthy (v : pyval) : bool :=
  match v with
  | PyNone => false
  | PyBool b => b
  | PyInt z => negb (z =? 0)
  | PyStr s => negb (String.eqb s "")
  | PyList l => match l with [] => false | _ => true end
  | PyDict d => match d with [] => false | _ => true end
  end.

(** [v == s] for a string literal [s]. *)
Definition eq_str (v : pyval) (s : string) : bool :=
  match v with PyStr s' => String.eqb s' s | _ => false end.

(** [v == n] for an integer literal [n] other than 0 and 1 (so that no
    boolean equals it). *)
Definition eq_int (v : pyval) (n : Z) : bool :=
  match v with PyInt z => z =? n | _ => false end.

(** Lists and dictionaries are not hashable. *)
Definition hashable (k : pyval) : bool :=
  match k with PyList _ | PyDict _ => false | _ => true end.

(** [v[k]] for a string literal [k]. *)
Definition getitem (v : pyval) (k : string) : res pyval :=
  match v with
  | PyDict d =>
      match dict_get k d with
      | Some x => Ok x
      | None => Raise KeyError
      end
  | _ => Raise TypeError
  end.

Fixpoint chars (s : string) : list pyval :=
  match s with
  | EmptyString => []
  | String c s' => PyStr (String c EmptyString) :: chars s'
  end.

Definition seq_index (l : list pyval) (i : Z) : res pyval :=
  let n := Z.of_nat (List.length l) in
  let j := if i <? 0 then n + i else i in
  if (0 <=? j) && (j <? n)
  then match nth_error l (Z.to_nat j) with
       | Some x => Ok x
       | None => Raise IndexError
       end
  else Raise IndexError.

(** [v[i]] for an integer literal [i]; negative indices count from the end. *)
Definition getitem_int (v : pyval) (i : Z) : res pyval :=
  match v with
  | PyList l => seq_index l i
  | PyStr s => seq_index (chars s) i
  | PyDict _ => Raise KeyError
  | _ => Raise TypeError
  end.

Definition is_substring (k s : string) : bool :=
  match String.index 0 k s with Some _ => true | None => false end.

(** [k in v] for a string literal [k]. *)
Definition contains (k : string) (v : pyval) : res bool :=
  match v with
  | PyDict d => Ok (dict_has k d)
  | PyList l => Ok (existsb (fun x => eq_str x k) l)
  | PyStr s => Ok (is_substring k s)
  | _ => Raise TypeError
  end.

(** [k in d] for an arbitrary object [k] and a dictionary [d]. *)
Definition dict_contains (k : pyval) (d : dict) : res bool :=
  if hashable k
  then match k with
       | PyStr s => Ok (dict_has s d)
       | _ => Ok false
       end
  else Raise TypeError.

(** [d[k]] for an arbitrary object [k] and a dictionary [d]. *)
Definition dict_getitem (k : pyval) (d : dict) : res pyval :=
  if hashable k
  then match k with
       | PyStr s => getitem (PyDict d) s
       | _ => Raise KeyError
       end
  else Raise TypeError.

Definition len (v : pyval) : res Z :=
  match v with
  | PyList l => Ok (Z.of_nat (List.length l))
  | PyDict d => Ok (Z.of_nat (List.length d))
  | PyStr s => Ok (Z.of_nat (String.length s))
  | _ => Raise TypeError
  end.

(** The elements visited by [for x in v]. *)
Definition iter (v : pyval) : res (list pyval) :=
  match v with
  | PyList l => Ok l
  | PyDict d => Ok (map PyStr (dict_keys d))
  | PyStr s => Ok (chars s)
  | _ => Raise TypeError
  end.

Fixpoint mapM {A B : Type} (f : A -> res B) (l : list A) : res (list B) :=
  match l with
  | [] => Ok []
  | x :: l' => (y <- f x ;; ys <- mapM f l' ;; Ok (y :: ys))%res
  end.

(** ** fb_model.py *)

Module FbModel.

(** The loop of [get_dict_val]; [retval] is the loop variable. *)
Fixpoint get_dict_val_loop (retval : pyval) (keys : list pyval) : res pyval :=
  match keys with
  | [] => Ok retval
  | k :: keys' =>
      match retval with
      | PyDict d =>
          (found <- dict_contains k d ;;
           if found : bool
           then (v <- dict_getitem k d ;; get_dict_val_loop v keys')
           else Ok PyNone)%res
      | _ => Ok PyNone
      end
  end.

Definition get_dict_val (dictionary key_list : pyval) : res pyval :=
  if negb (isinstance_dict dictionary) then Raise TypeError
  else if negb (isinstance_list key_list) then Raise TypeError
  else match key_list with
       | PyList keys => get_dict_val_loop dictionary keys
       | _ => Raise TypeError
       end.

Record PostBase : Type := { post_object : pyval }.


Definition get_value (self : PostBase) (key_list : list string) : res pyval :=
  get_dict_val (post_object self) (PyList (map PyStr key_list)).

Section FbIgPost.
  (** The builtin [str] and the text cleaner of the [cleantext] package. *)
Variable str : pyval -> string.
Variable clean_text : pyval -> res pyval.

Definition get_post_ID (self : PostBase) : res pyval :=
    (post_id <- get_value self ["id"] ;;
     if is_None post_id then Ok PyNone else Ok (PyStr (str post_id)))%res.

Definition get_link_to_post (self : PostBase) : res pyval :=
    get_value self ["postUrl"].

Definition get_platform (self : PostBase) : res pyval :=
    get_value self ["platform"].

Definition get_post_type (self : PostBase) : res pyval :=
    get_value self ["type"].

Definition get_user_ID (self : PostBase) : res pyval :=
    (user_id <- get_value self ["account"; "id"] ;;
     if is_None user_id then Ok PyNone else Ok (PyStr (str user_id)))%res.

  (** The loop of [get_text] over the four text fields; [text_obj] is the
      dictionary being filled. *)
Fixpoint get_text_loop (self : PostBase) (clean : bool)
      (fields : list string) (text_obj : dict) : res dict :=
    match fields with
    | [] => Ok text_obj
    | text_field :: fields' =>
        (temp_text <- get_value self [text_field] ;;
         if is_None temp_text then get_text_loop self clean fields' text_obj
         else
           temp_text' <- (if clean then clean_text temp_text else Ok temp_text) ;;
           get_text_loop self clean fields' (dict_set text_field temp_text' text_obj))%res
    end.

  (** [" ".join(xs)]: every element has to be a string. *)
Fixpoint join_space (xs : list pyval) : res string :=
    match xs with
    | [] => Ok ""
    | PyStr s :: [] => Ok s
    | PyStr s :: xs' => (rest <- join_space xs' ;; Ok (s ++ " " ++ rest))%res
    | _ :: _ => Raise TypeError
    end.

Definition get_text (self : PostBase) (clean struct : bool) : res pyval :=
    (text_obj <- get_text_loop self clean
                   ["message"; "title"; "description"; "imageText"] [] ;;
     if struct then Ok (PyDict text_obj)
     else s <- join_space (dict_values text_obj) ;; Ok (PyStr s))%res.

Definition get_URLs (self : PostBase) : res pyval :=
    (expandedUrls <- get_value self ["expandedLinks"] ;;
     if negb (is_None expandedUrls)
     then items <- iter expandedUrls ;;
          urls <- mapM (fun item => getitem item "expanded") items ;;
          Ok (PyList urls)
     else Ok (PyList []))%res.

  (** The body of the [for] loop of [get_media], for one [item]. *)
Definition media_obj_of (item : pyval) : res pyval :=
    (url <- getitem item "url" ;;
     type <- getitem item "type" ;;
     let media_obj := [("media_url", url); ("media_type", type)] in
     has_full <- contains "full" item ;;
     if has_full : bool
     then full <- getitem item "full" ;;
          Ok (PyDict (dict_set "media_full_url" full media_obj))
     else Ok (PyDict media_obj))%res.

Definition get_media (self : PostBase) : res pyval :=
    (media_list <- get_value self ["media"] ;;
     if negb (is_None media_list)
     then items <- iter media_list ;;
          media <- mapM media_obj_of items ;;
          Ok (PyList media)
     else Ok (PyList []))%res.
End FbIgPost.

(** *** Text splitting, hashtags and timestamps *)

(** [c.isspace()], as [str.split()] tests it.  A character of a string
    stands for the code point of the same number, so that the white space
    below 256 is: tab to carriage return, the four separators 28 to 31, the
    space, NEL (133) and the no-break space (160). *)
Definition isspace (c : Ascii.ascii) : bool :=
  let n := Ascii.nat_of_ascii c in
  ((9 <=? n) && (n <=? 13) || (28 <=? n) && (n <=? 32)
   || (n =? 133) || (n =? 160))%nat.

Definition flush (word : string) : list string :=
  match word with
  | EmptyString => []
  | _ => [word]
  end.

(** [s.split()]: the maximal runs of characters that are not white space.
    [word] is the run being read. *)
Fixpoint split_from (word : string) (s : string) : list string :=
  match s with
  | EmptyString => flush word
  | String c s' =>
      if isspace c
      then (flush word ++ split_from EmptyString s')%list
      else split_from (word ++ String c EmptyString) s'
  end.

Definition split (s : string) : list string := split_from EmptyString s.

(** [part.startswith("#")] and [part[1:]]. *)
Definition startswith_hash (part : string) : bool := String.prefix "#" part.

Definition drop_first (part : string) : string :=
  match part with
  | EmptyString => EmptyString
  | String _ rest => rest
  end.

(** The list comprehension of [get_hashtags]. *)
Definition hashtags_in (text_string : string) : list string :=
  map drop_first (filter startswith_hash (split text_string)).

Section FbIgPostText.
(** The text cleaner of the [cleantext] package, and
    [int(datetime.strptime(date, "%Y-%m-%d %H:%M:%S")
           .replace(tzinfo=timezone.utc).timestamp())] of the standard
    library. *)
Variable clean_text : pyval -> res pyval.
Variable strptime_utc_timestamp : pyval -> res Z.

Definition get_hashtags (self : PostBase) : res pyval :=
  (text_string <- get_text clean_text self false false ;;
   match text_string with
   | PyStr s => Ok (PyList (map PyStr (hashtags_in s)))
   | _ => Raise TypeError
   end)%res.

Definition convert_to_timestamp (date : pyval) : res pyval :=
  (t <- strptime_utc_timestamp date ;; Ok (PyInt t))%res.

Definition get_timestamp (self : PostBase) : res pyval :=
  (date <- get_value self ["date"] ;;
   if negb (is_None date) then convert_to_timestamp date else Ok PyNone)%res.

Definition get_update_timestamp (self : PostBase) : res pyval :=
  (date <- get_value self ["updated"] ;;
   if negb (is_None date) then convert_to_timestamp date else Ok PyNone)%res.
End FbIgPostText.

End FbModel.

(** ** ct_helpers.py *)

Module CtHelpers.

(** *** The HTTP transport

    What [requests.get] meets on one attempt: no answer at all, or an answer
    with a status code and a body, [None] when the body is not JSON. *)
Inductive http_reply : Type :=
| NetworkFailure
| Reply (status : Z) (body : option pyval).

Record Response : Type := { status_code : Z; json_body : option pyval }.

Record request : Type := { url : pyval; params : dict }.

(** [c.lower()] for the letters A to Z, which is all that a comparison with
    a lower-case ASCII prefix depends on. *)
Definition ascii_lower (c : Ascii.ascii) : Ascii.ascii :=
  let n := Ascii.nat_of_ascii c in
  if ((65 <=? n) && (n <=? 90))%nat then Ascii.ascii_of_nat (n + 32) else c.

(** [s.lower().startswith(p)] for a lower-case prefix [p]. *)
Fixpoint lower_startswith (p s : string) : bool :=
  match p with
  | EmptyString => true
  | String a p' =>
      match s with
      | EmptyString => false
      | String b s' => Ascii.eqb a (ascii_lower b) && lower_startswith p' s'
      end
  end.

(** [s.lstrip()]. *)
Fixpoint lstrip (s : string) : string :=
  match s with
  | EmptyString => EmptyString
  | String c s' => if FbModel.isspace c then lstrip s' else s
  end.

(** The URLs for which [requests] has a connection adapter: those that,
    leading white space apart, begin with http:// or https:// in any case.
    Every other string, the empty one included, is refused before anything
    is sent. *)
Definition http_url (s : string) : bool :=
  lower_startswith "http://" (lstrip s) || lower_startswith "https://" (lstrip s).

(** What [requests] puts into the query string for one entry of [params]:
    nothing for [None], one value per element other than [None] for a list,
    one per key for a dictionary, and the value itself otherwise. *)
Definition values_sent (v : pyval) : list pyval :=
  match v with
  | PyNone => []
  | PyList l => filter (fun x => negb (is_None x)) l
  | PyDict d => map PyStr (dict_keys d)
  | _ => [v]
  end.

(** The names and values transmitted in the query string for [params]. *)
Definition query_of (params : dict) : list (string * pyval) :=
  flat_map (fun kv => map (pair (fst kv)) (values_sent (snd kv))) params.

(** [requests.get(url, params=params)].  A [url] that is not a string, or
    is a string for which there is no adapter, is refused before a
    connection is opened.  Otherwise the request is sent with the query
    [query_of params], and the reply decides: a failure raises (also the
    refusal of a URL that starts well but has no usable host), and every
    answer of the server, whatever its status, is returned as a
    [Response]. *)
Definition requests_get (r : request) (reply : http_reply) : res Response :=
  match url r with
  | PyStr s =>
      if http_url s
      then match reply with
           | NetworkFailure => Raise ConnectionError
           | Reply s b => Ok {| status_code := s; json_body := b |}
           end
      else Raise URLRefused
  | _ => Raise URLRefused
  end.

Definition raise_for_status (r : Response) : res unit :=
  if (400 <=? status_code r) && (status_code r <? 600)
  then Raise HTTPError else Ok tt.

Definition Response_json (r : Response) : res pyval :=
  match json_body r with
  | Some v => Ok v
  | None => Raise JSONDecodeError
  end.

(** *** ct_get_posts *)

Record posts_args : Type := {
  count : pyval;
  start_time : pyval;
  end_time : pyval;
  include_history : pyval;
  sort_by : pyval;
  types : pyval;
  search_term : pyval;
  min_interactions : pyval;
  offset : pyval;
  api_token : pyval;
  listIds : pyval
}.

(** The default values of the keyword arguments. *)
Definition default_args : posts_args := {|
  count := PyInt 10;
  start_time := PyNone;
  end_time := PyNone;
  include_history := PyNone;
  sort_by := PyStr "date";
  types := PyNone;
  search_term := PyNone;
  min_interactions := PyInt 0;
  offset := PyInt 0;
  api_token := PyNone;
  listIds := PyNone
|}.

Definition URL_BASE : pyval := PyStr "https://api.crowdtangle.com/posts".

Definition set_if (c : bool) (k : string) (v : pyval) (d : dict) : dict :=
  if c then dict_set k v d else d.

(** The dictionary [PARAMS] handed to [requests.get]. *)
Definition PARAMS (a : posts_args) : dict :=
  let PARAMS := [("count", count a);
                 ("sortBy", sort_by a);
                 ("token", api_token a);
                 ("minInteractions", min_interactions a);
                 ("offset", offset a)] in
  let PARAMS := set_if (truthy (start_time a)) "startDate" (start_time a) PARAMS in
  let PARAMS := set_if (truthy (end_time a)) "endDate" (end_time a) PARAMS in
  let PARAMS := set_if (eq_str (include_history a) "true")
                  "includeHistory" (include_history a) PARAMS in
  let PARAMS := set_if (truthy (types a)) "types" (types a) PARAMS in
  let PARAMS := set_if (truthy (search_term a)) "searchTerm" (search_term a) PARAMS in
  set_if (truthy (listIds a)) "listIds" (listIds a) PARAMS.

Definition ct_get_posts_request (a : posts_args) : request :=
  {| url := URL_BASE; params := PARAMS a |}.

Definition ct_get_posts (a : posts_args) (reply : http_reply) : res pyval :=
  (r <- requests_get (ct_get_posts_request a) reply ;;
   _ <- (if negb (status_code r =? 200) then raise_for_status r else Ok tt) ;;
   Response_json r)%res.

(** *** download_posts *)

Record download_args : Type := {
  crowdtangle_list_id : pyval;
  start : pyval;
  end_ : pyval;
  max_queries : Z;
  token : pyval
}.

(** The local variables of [download_posts] that live across iterations.
    [next_page_url] is [None] as long as the variable is unbound; [slept]
    lists the arguments of [time.sleep], in seconds, oldest first. *)
Record state : Type := {
  total_posts : Z;
  query_count : Z;
  retry_count : Z;
  data : list pyval;
  first_call : bool;
  more_data : bool;
  next_page_url : option pyval;
  slept : list Q
}.

Definition max_retries : Z := 10.

Definition initial_state : state := {|
  total_posts := 0;
  query_count := 0;
  retry_count := 0;
  data := [];
  first_call := true;
  more_data := false;
  next_page_url := None;
  slept := []
|}.

Definition set_total_posts (x : Z) (st : state) : state :=
  {| total_posts := x; query_count := query_count st;
     retry_count := retry_count st; data := data st;
     first_call := first_call st; more_data := more_data st;
     next_page_url := next_page_url st; slept := slept st |}.

Definition set_query_count (x : Z) (st : state) : state :=
  {| total_posts := total_posts st; query_count := x;
     retry_count := retry_count st; data := data st;
     first_call := first_call st; more_data := more_data st;
     next_page_url := next_page_url st; slept := slept st |}.

Definition set_retry_count (x : Z) (st : state) : state :=
  {| total_posts := total_posts st; query_count := query_count st;
     retry_count := x; data := data st;
     first_call := first_call st; more_data := more_data st;
     next_page_url := next_page_url st; slept := slept st |}.

Definition set_data (x : list pyval) (st : state) : state :=
  {| total_posts := total_posts st; query_count := query_count st;
     retry_count := retry_count st; data := x;
     first_call := first_call st; more_data := more_data st;
     next_page_url := next_page_url st; slept := slept st |}.

Definition set_first_call (x : bool) (st : state) : state :=
  {| total_posts := total_posts st; query_count := query_count st;
     retry_count := retry_count st; data := data st;
     first_call := x; more_data := more_data st;
     next_page_url := next_page_url st; slept := slept st |}.

Definition set_more_data (x : bool) (st : state) : state :=
  {| total_posts := total_posts st; query_count := query_count st;
     retry_count := retry_count st; data := data st;
     first_call := first_call st; more_data := x;
     next_page_url := next_page_url st; slept := slept st |}.

Definition set_next_page_url (x : pyval) (st : state) : state :=
  {| total_posts := total_posts st; query_count := query_count st;
     retry_count := retry_count st; data := data st;
     first_call := first_call st; more_data := more_data st;
     next_page_url := Some x; slept := slept st |}.

Definition time_sleep (seconds : Q) (st : state) : state :=
  {| total_posts := total_posts st; query_count := query_count st;
     retry_count := retry_count st; data := data st;
     first_call := first_call st; more_data := more_data st;
     next_page_url := next_page_url st; slept := (slept st ++ [seconds])%list |}.

(** Statements that read and assign the local variables and may raise.  An
    exception leaves the assignments made so far in place. *)
Definition M (A : Type) : Type := state -> res A * state.

Definition ret {A : Type} (a : A) : M A := fun st => (Ok a, st).

Definition bind {A B : Type} (m : M A) (k : A -> M B) : M B :=
  fun st =>
    match m st with
    | (Ok a, st') => k a st'
    | (Raise e, st') => (Raise e, st')
    end.

Definition lift {A : Type} (r : res A) : M A := fun st => (r, st).

Definition read {A : Type} (field : state -> A) : M A :=
  fun st => (Ok (field st), st).

Definition assign (update : state -> state) : M unit :=
  fun st => (Ok tt, update st).

(** Reading a local variable that may still be unbound. *)
Definition read_bound (field : state -> option pyval) : M pyval :=
  fun st =>
    match field st with
    | Some v => (Ok v, st)
    | None => (Raise UnboundLocalError, st)
    end.

Definition when (c : bool) (m : M unit) : M unit := if c then m else ret tt.

Declare Scope M_scope.
Delimit Scope M_scope with M.
Notation "x <- m ;; k" := (bind m (fun x => k))
  (at level 61, m at next level, right associativity) : M_scope.
Notation "m ;; k" := (bind m (fun _ => k))
  (at level 61, right associativity) : M_scope.

(** The arguments of the first call (lines 182-190). *)
Definition first_query (a : download_args) : posts_args := {|
  count := PyInt 100;
  start_time := start a;
  end_time := end_ a;
  include_history := PyStr "true";
  sort_by := PyStr "date";
  types := PyNone;
  search_term := PyNone;
  min_interactions := PyInt 0;
  offset := PyInt 0;
  api_token := token a;
  listIds := crowdtangle_list_id a
|}.

(** The follow-up call (lines 195-197): a plain GET of the stored URL whose
    body is parsed whatever the status of the answer. *)
Definition get_next_page (next_page_url : pyval) (reply : http_reply) : res pyval :=
  (response <- requests_get {| url := next_page_url; params := [] |} reply ;;
   Response_json response)%res.

(** Lines 180-197: the page fetch at the head of the [try] block. *)
Definition fetch (a : download_args) (reply : http_reply) : M pyval :=
  (fc <- read first_call ;;
   if fc : bool
   then assign (time_sleep (1 # 2)) ;;
        lift (ct_get_posts (first_query a) reply)
   else assign (time_sleep (1 # 2)) ;;
        next <- read_bound next_page_url ;;
        lift (get_next_page next reply))%M.

(** [results["result"][k]]. *)
Definition result_item (results : pyval) (k : string) : res pyval :=
  (result <- getitem results "result" ;; getitem result k)%res.

(** Lines 205-209: [first_call] is cleared by a first call that has status
    200 and posts. *)
Definition note_first_call (results : pyval) (num_posts : Z) : M unit :=
  (fc <- read first_call ;;
   if fc : bool
   then status <- lift (getitem results "status") ;;
        when (eq_int status 200 && negb (num_posts =? 0))
             (assign (set_first_call false))
   else ret tt)%M.

(** Lines 211-220: the pagination URL is reset and then taken from the page
    if it is there. *)
Definition grab_next_page (results : pyval) : M unit :=
  (assign (set_next_page_url PyNone) ;;
   result <- lift (getitem results "result") ;;
   has_pagination <- lift (contains "pagination" result) ;;
   (if has_pagination : bool
    then pagination <- lift (result_item results "pagination") ;;
         has_next <- lift (contains "nextPage" pagination) ;;
         if has_next : bool
         then pagination' <- lift (result_item results "pagination") ;;
              next <- lift (getitem pagination' "nextPage") ;;
              assign (set_next_page_url next) ;;
              assign (set_more_data true)
         else ret tt
    else ret tt) ;;
   next <- read_bound next_page_url ;;
   when (is_None next) (assign (set_more_data false)))%M.

(** Lines 200-220: the rest of the [try] block.  It yields [posts] and
    [num_posts], which the [else] branch reads. *)
Definition process_page (results : pyval) : M (pyval * Z) :=
  (posts <- lift (result_item results "posts") ;;
   num_posts <- lift (len posts) ;;
   note_first_call results num_posts ;;
   grab_next_page results ;;
   ret (posts, num_posts))%M.

Definition try_block (a : download_args) (reply : http_reply) : M (pyval * Z) :=
  (results <- fetch a reply ;; process_page results)%M.

(** How a [while] iteration ends: it reaches the loop test again (by
    [continue] or by falling off the end of the body), it leaves the loop by
    [break], or an exception leaves the function. *)
Inductive ctl : Type :=
| Next (st : state)
| Break (st : state)
| Propagate (e : exn) (st : state).

(** Lines 228-237 and 242-252: the retry bookkeeping, written twice in the
    source, after an exception and after a page without posts. *)
Definition retry (st : state) : ctl :=
  let st := set_retry_count (retry_count st + 1) st in
  if max_retries - retry_count st <=? 0
  then Break st
  else let wait_time := 5 * retry_count st in
       Next (time_sleep (inject_Z wait_time) st).

(** Lines 255-270: a page with posts is accepted. *)
Definition accept_page (posts : pyval) (num_posts : Z) : M unit :=
  (assign (set_retry_count 0) ;;
   newest <- lift (getitem_int posts 0) ;;
   most_recent_date_str <- lift (getitem newest "date") ;;
   oldest <- lift (getitem_int posts (-1)) ;;
   oldest_date_str <- lift (getitem oldest "date") ;;
   items <- lift (iter posts) ;;
   d <- read data ;;
   assign (set_data (d ++ items)%list) ;;
   tp <- read total_posts ;;
   assign (set_total_posts (tp + num_posts)))%M.

(** Lines 272-276. *)
Definition count_query (a : download_args) (st : state) : ctl :=
  let st := set_query_count (query_count st + 1) st in
  if query_count st >=? max_queries a then Break st else Next st.

(** One iteration of the [while] loop (lines 179-276). *)
Definition iteration (a : download_args) (reply : http_reply) (st : state) : ctl :=
  match try_block a reply st with
  | (Raise e, st1) => retry st1
  | (Ok (posts, num_posts), st1) =>
      if num_posts =? 0 then retry st1
      else match accept_page posts num_posts st1 with
           | (Raise e, st2) => Propagate e st2
           | (Ok _, st2) => count_query a st2
           end
  end.

(** What an attempt amounted to: the [try] block raised, it produced a page
    without posts, or it produced a page with [n] posts. *)
Inductive attempt : Type :=
| Failed (e : exn)
| EmptyPage
| NonEmptyPage (n : Z).

Definition classify (r : res (pyval * Z)) : attempt :=
  match r with
  | Raise e => Failed e
  | Ok (_, num_posts) => if num_posts =? 0 then EmptyPage else NonEmptyPage num_posts
  end.

Definition attempt_of (a : download_args) (reply : http_reply) (st : state) : attempt :=
  classify (fst (try_block a reply st)).

Definition failed_or_empty (x : attempt) : bool :=
  match x with NonEmptyPage _ => false | _ => true end.

(** How the loop ends on a list of replies: the function returns, an
    exception leaves it, or the loop asks for a reply the list does not
    have. *)
Inductive finish : Type :=
| Returns
| Raises (e : exn)
| OutOfReplies.

(** A run of the loop: the attempts made, in order, the local variables at
    the end, and how it ended. *)
Record run : Type := { journal : list attempt; final : state; ending : finish }.

Definition log (x : attempt) (r : run) : run :=
  {| journal := x :: journal r; final := final r; ending := ending r |}.

Definition loop_test (st : state) : bool := first_call st || more_data st.

(** The [while] loop (line 178), one reply per iteration. *)
Fixpoint loop (a : download_args) (replies : list http_reply) (st : state) : run :=
  if loop_test st
  then match replies with
       | [] => {| journal := []; final := st; ending := OutOfReplies |}
       | reply :: replies' =>
           let x := attempt_of a reply st in
           match iteration a reply st with
           | Next st' => log x (loop a replies' st')
           | Break st' => {| journal := [x]; final := st'; ending := Returns |}
           | Propagate e st' => {| journal := [x]; final := st'; ending := Raises e |}
           end
       end
  else {| journal := []; final := st; ending := Returns |}.

(** [download_posts]: [None] when the replies run out before the loop is
    over, otherwise the list returned or the exception raised. *)
Definition download_posts (a : download_args) (replies : list http_reply)
    : option (res (list pyval)) :=
  let r := loop a replies initial_state in
  match ending r with
  | Returns => Some (Ok (data (final r)))
  | Raises e => Some (Raise e)
  | OutOfReplies => None
  end.

(** *** ct_get_lists *)

Definition LISTS_URL : pyval := PyStr "https://api.crowdtangle.com/lists".

Definition ct_get_lists_request (api_token : pyval) : request :=
  {| url := LISTS_URL; params := [("token", api_token)] |}.

(** Lines 33-48.  On a status other than 200 the body is parsed and its
    [status], [code] and [message] are printed, one after the other; the
    body is then parsed again and returned. *)
Definition ct_get_lists (api_token : pyval) (reply : http_reply) : res pyval :=
  if is_None api_token then Raise ValueError
  else
    (r <- requests_get (ct_get_lists_request api_token) reply ;;
     _ <- (if negb (status_code r =? 200)
           then out <- Response_json r ;;
                _ <- getitem out "status" ;;
                _ <- getitem out "code" ;;
                _ <- getitem out "message" ;;
                Ok tt
           else Ok tt) ;;
     Response_json r)%res.

End CtHelpers.

(** ** Sample payloads *)

Module Samples.
Import CtHelpers.

Definition post (i : Z) : pyval :=
  PyDict [("id", PyInt i); ("date", PyStr "2024-01-15 10:30:00")].

Definition posts_from (first : Z) (n : nat) : list pyval :=
  map (fun k => post (first + Z.of_nat k)) (seq 0 n).

(** A page as the posts endpoint sends it; [next] is the [nextPage] URL. *)
Definition page (posts : list pyval) (next : option string) : pyval :=
  PyDict [("status", PyInt 200);
          ("result",
            PyDict [("posts", PyList posts);
                    ("pagination",
                      PyDict match next with
                             | Some u => [("nextPage", PyStr u)]
                             | None => []
                             end)])].

(** A page whose [result] has no [pagination] entry at all. *)
Definition bare_page (posts : list pyval) : pyval :=
  PyDict [("status", PyInt 200); ("result", PyDict [("posts", PyList posts)])].

Definition next_url : string := "https://api.crowdtangle.com/posts?offset=100".

Definition args (max_queries : Z) : download_args := {|
  crowdtangle_list_id := PyStr "34083";
  start := PyStr "2024-01-01";
  end_ := PyStr "2024-02-01";
  max_queries := max_queries;
  token := PyStr "TOKEN"
|}.

Definition ok (body : pyval) : http_reply := Reply 200 (Some body).

End Samples.

(** ** Notions used to state the properties *)

Module Notions.
Import CtHelpers.


(** [path_reaches v keys w]: following [keys] from [v] every segment is
    present, every value passed through is a mapping, and the value at the
    end of the path is [w]. *)
Inductive path_reaches : pyval -> list pyval -> pyval -> Prop :=
| reach_here (v : pyval) : path_reaches v [] v
| reach_down (d : dict) (k : string) (v : pyval) (keys : list pyval) (w : pyval) :
    dict_get k d = Some v ->
    path_reaches v keys w ->
    path_reaches (PyDict d) (PyStr k :: keys) w.

(** The statement [m] leaves the variable (or expression) [f] as it was,
    whether it completes or raises. *)
Definition keeps {A B : Type} (f : state -> B) (m : M A) : Prop :=
  forall st, f (snd (m st)) = f st.

(** The state an iteration ends in, when no exception leaves the function. *)
Definition after (c : ctl) : option state :=
  match c with
  | Next st | Break st => Some st
  | Propagate _ _ => None
  end.

Definition pages (j : list attempt) : Z :=
  Z.of_nat (List.length (filter (fun x => negb (failed_or_empty x)) j)).

(** The longest run of consecutive failed or empty attempts in a journal
    that is entered with a run of length [current] under way. *)
Fixpoint longest_streak (current : Z) (j : list attempt) : Z :=
  match j with
  | [] => current
  | x :: j' =>
      if failed_or_empty x
      then longest_streak (current + 1) j'
      else Z.max current (longest_streak 0 j')
  end.

(** The waits a journal calls for, in seconds and in order, when it is
    entered with [streak] failed or empty attempts in a row behind it: half
    a second before every attempt, and after the attempt of rank [n] in a
    run of consecutive failed or empty attempts [5 * n] seconds, unless
    that attempt is the one that gives up ([n >= max_retries]).  An
    accepted page ends the run. *)
Fixpoint waits (streak : Z) (j : list attempt) : list Q :=
  match j with
  | [] => []
  | x :: j' =>
      if failed_or_empty x
      then ((1 # 2)
            :: (if streak + 1 <? max_retries
                then [inject_Z (5 * (streak + 1))] else [])
            ++ waits (streak + 1) j')%list
      else (1 # 2) :: waits 0 j'
  end.

(** The names [ct_get_posts] puts into [PARAMS] whatever its arguments, and
    those it adds on a condition. *)
Definition fixed_params : list string :=
  ["count"; "sortBy"; "token"; "minInteractions"; "offset"].

Definition optional_params : list string :=
  ["startDate"; "endDate"; "includeHistory"; "types"; "searchTerm"; "listIds"].

(** The number of records of the pages a journal accepted. *)
Fixpoint records (j : list attempt) : Z :=
  match j with
  | [] => 0
  | NonEmptyPage n :: j' => n + records j'
  | _ :: j' => records j'
  end.


(** [v] is a dictionary with an entry [k]. *)
Definition has_field (k : string) (v : pyval) : bool :=
  match v with
  | PyDict d => dict_has k d
  | _ => false
  end.

(** The first and the last element of [posts] are dictionaries with a
    [date]: what lines 258-259 read of a page. *)
Definition dated_ends (posts : pyval) : bool :=
  match posts with
  | PyList l => has_field "date" (hd PyNone l) && has_field "date" (last l PyNone)
  | _ => false
  end.

(** The exceptions of the embedding that the [try] block of
    [download_posts] can raise. *)
Definition caught_kinds : list exn :=
  [ConnectionError; URLRefused; HTTPError; JSONDecodeError; KeyError; TypeError].

Definition caught (x : attempt) : Prop :=
  match x with
  | Failed e => In e caught_kinds
  | _ => True
  end.

(** [next_page_url] is bound whenever the follow-up branch can be taken. *)
Definition url_bound (st : state) : Prop :=
  first_call st = true \/ next_page_url st <> None.

(** The statement [m] keeps the property [P] of the variables, whether it
    completes or raises. *)
Definition preserves {A : Type} (P : state -> Prop) (m : M A) : Prop :=
  forall st, P st -> P (snd (m st)).

Fixpoint all_chars (p : Ascii.ascii -> bool) (s : string) : bool :=
  match s with
  | EmptyString => true
  | String c s' => p c && all_chars p s'
  end.

(** The entry [k] of [v], if [v] is a dictionary and has one. *)
Definition field (k : string) (v : pyval) : option pyval :=
  match v with
  | PyDict d => dict_get k d
  | _ => None
  end.

Definition or_None (o : option pyval) : pyval :=
  match o with
  | Some v => v
  | None => PyNone
  end.

Definition strings_of (l : list pyval) : list string :=
  flat_map (fun v => match v with PyStr s => [s] | _ => [] end) l.

Definition not_space (c : Ascii.ascii) : bool := negb (FbModel.isspace c).

Definition is_str (v : pyval) : bool :=
  match v with PyStr _ => true | _ => false end.

(** The four text fields of a post, in the order [get_text] reads them. *)
Definition text_fields : list string :=
  ["message"; "title"; "description"; "imageText"].

(** The entries of [text_fields] that the payload [d] has with a value
    other than null. *)
Definition present_texts (d : dict) : dict :=
  flat_map (fun k => match dict_get k d with
                     | Some v => if is_None v then [] else [(k, v)]
                     | None => []
                     end) text_fields.

End Notions.

(** * Properties *)

Import CtHelpers Samples Notions.

(** ** Statements of the [try] block: what they leave unchanged *)

Section Keeps.
Context {B : Type} (f : state -> B).

Lemma keeps_ret {A : Type} (a : A) : keeps f (ret a).
  Proof. intros st; reflexivity. Qed.

Lemma keeps_lift {A : Type} (r : res A) : keeps f (lift r).
  Proof. intros st; reflexivity. Qed.

Lemma keeps_read {A : Type} (g : state -> A) : keeps f (read g).
  Proof. intros st; reflexivity. Qed.

Lemma keeps_read_bound (g : state -> option pyval) : keeps f (read_bound g).
  Proof. intros st; unfold read_bound; destruct (g st); reflexivity. Qed.

Lemma keeps_assign (u : state -> state) :
    (forall st, f (u st) = f st) -> keeps f (assign u).
  Proof. intros H st; apply H. Qed.

Lemma keeps_bind {A C : Type} (m : M A) (k : A -> M C) :
    keeps f m -> (forall a, keeps f (k a)) -> keeps f (bind m k).
  Proof.
    intros Hm Hk st. unfold bind. specialize (Hm st).
    destruct (m st) as [[a | e] st']; simpl in *.
    - rewrite Hk. exact Hm.
    - exact Hm.
  Qed.

Lemma keeps_when (c : bool) (m : M unit) : keeps f m -> keeps f (when c m).
  Proof. intros H; destruct c; [exact H | apply keeps_ret]. Qed.
End Keeps.

Ltac keeps_step :=
  first
    [ apply keeps_ret | apply keeps_lift | apply keeps_read
    | apply keeps_read_bound
    | apply keeps_assign; intros; reflexivity
    | apply keeps_when
    | apply keeps_bind; [ | intros ]
    | match goal with
      | |- keeps _ (if ?b then _ else _) => destruct b
      end ].

Ltac keeps_all := repeat keeps_step.

Lemma try_block_keeps_query_count a reply : keeps query_count (try_block a reply).
Proof. unfold try_block, fetch, process_page, note_first_call, grab_next_page.
  keeps_all. Qed.

Lemma try_block_keeps_retry_count a reply : keeps retry_count (try_block a reply).
Proof. unfold try_block, fetch, process_page, note_first_call, grab_next_page.
  keeps_all. Qed.

Lemma try_block_keeps_data a reply : keeps data (try_block a reply).
Proof. unfold try_block, fetch, process_page, note_first_call, grab_next_page.
  keeps_all. Qed.

Lemma try_block_keeps_total_posts a reply : keeps total_posts (try_block a reply).
Proof. unfold try_block, fetch, process_page, note_first_call, grab_next_page.
  keeps_all. Qed.

Lemma fetch_keeps_first_call a reply : keeps first_call (fetch a reply).
Proof. unfold fetch. keeps_all. Qed.

Lemma accept_page_keeps_query_count posts n : keeps query_count (accept_page posts n).
Proof. unfold accept_page. keeps_all. Qed.


(** ** One iteration of the loop *)

Lemma retry_cases st :
  retry st =
  let st' := set_retry_count (retry_count st + 1) st in
  if max_retries <=? retry_count st + 1
  then Break st'
  else Next (time_sleep (inject_Z (5 * (retry_count st + 1))) st').
Proof.
  unfold retry, max_retries; cbv zeta.
  change (retry_count (set_retry_count (retry_count st + 1) st))
    with (retry_count st + 1).
  destruct (Z.leb_spec (10 - (retry_count st + 1)) 0);
    destruct (Z.leb_spec 10 (retry_count st + 1)); try lia; reflexivity.
Qed.

Lemma accept_page_ok posts n st u st2 :
  accept_page posts n st = (Ok u, st2) ->
  exists items,
    iter posts = Ok items /\
    st2 = set_total_posts (total_posts st + n)
            (set_data (data st ++ items) (set_retry_count 0 st)).
Proof.
  unfold accept_page, bind, lift, read, assign; simpl.
  destruct (getitem_int posts 0) as [p0 | ]; try discriminate.
  destruct (getitem p0 "date"); try discriminate.
  destruct (getitem_int posts (-1)) as [pl | ]; try discriminate.
  destruct (getitem pl "date"); try discriminate.
  destruct (iter posts) as [items | ]; try discriminate.
  intros H; inversion H; subst. exists items; split; reflexivity.
Qed.

Lemma iteration_failed_or_empty a reply st :
  failed_or_empty (attempt_of a reply st) = true ->
  iteration a reply st = retry (snd (try_block a reply st)).
Proof.
  unfold attempt_of, iteration.
  destruct (try_block a reply st) as [[[posts n] | e] st1]; simpl; auto.
  destruct (n =? 0); simpl; congruence.
Qed.

Lemma iteration_page a reply st :
  failed_or_empty (attempt_of a reply st) = false ->
  exists posts n st1,
    try_block a reply st = (Ok (posts, n), st1) /\
    n <> 0 /\
    attempt_of a reply st = NonEmptyPage n /\
    iteration a reply st =
      match accept_page posts n st1 with
      | (Raise e, st2) => Propagate e st2
      | (Ok _, st2) => count_query a st2
      end.
Proof.
  unfold attempt_of, iteration.
  destruct (try_block a reply st) as [[[posts n] | e] st1]; simpl;
    try discriminate.
  destruct (Z.eqb_spec n 0); simpl; try discriminate.
  intros _. exists posts, n, st1. auto.
Qed.

Lemma iteration_query_count a reply st st' :
  after (iteration a reply st) = Some st' ->
  query_count st' =
  query_count st + (if failed_or_empty (attempt_of a reply st) then 0 else 1).
Proof.
  intros H.
  destruct (failed_or_empty (attempt_of a reply st)) eqn:E.
  - rewrite (iteration_failed_or_empty _ _ _ E), retry_cases in H.
    pose proof (try_block_keeps_query_count a reply st) as K.
    cbv zeta in H.
    destruct (max_retries <=? _); simpl in H; inversion H; subst; simpl; lia.
  - destruct (iteration_page _ _ _ E) as (posts & n & st1 & Ht & Hn & _ & Hi).
    rewrite Hi in H.
    pose proof (try_block_keeps_query_count a reply st) as K.
    rewrite Ht in K; simpl in K.
    destruct (accept_page posts n st1) as [[u | e] st2] eqn:Ha;
      simpl in H; try discriminate.
    pose proof (accept_page_keeps_query_count posts n st1) as K2.
    rewrite Ha in K2; simpl in K2.
    unfold count_query in H; simpl in H.
    destruct (query_count st2 + 1 >=? max_queries a); simpl in H;
      inversion H; subst; simpl; lia.
Qed.

Lemma iteration_retry_count a reply st st' :
  after (iteration a reply st) = Some st' ->
  retry_count st' =
  if failed_or_empty (attempt_of a reply st) then retry_count st + 1 else 0.
Proof.
  intros H.
  destruct (failed_or_empty (attempt_of a reply st)) eqn:E.
  - rewrite (iteration_failed_or_empty _ _ _ E), retry_cases in H.
    pose proof (try_block_keeps_retry_count a reply st) as K.
    cbv zeta in H.
    destruct (max_retries <=? _); simpl in H; inversion H; subst; simpl; lia.
  - destruct (iteration_page _ _ _ E) as (posts & n & st1 & Ht & Hn & _ & Hi).
    rewrite Hi in H.
    destruct (accept_page posts n st1) as [[u | e] st2] eqn:Ha;
      simpl in H; try discriminate.
    destruct (accept_page_ok _ _ _ _ _ Ha) as (items & _ & ->).
    unfold count_query in H; simpl in H.
    destruct (_ >=? _); simpl in H; inversion H; subst; reflexivity.
Qed.

Lemma iteration_failed_data a reply st st' :
  failed_or_empty (attempt_of a reply st) = true ->
  after (iteration a reply st) = Some st' ->
  data st' = data st.
Proof.
  intros E H.
  rewrite (iteration_failed_or_empty _ _ _ E), retry_cases in H.
  pose proof (try_block_keeps_data a reply st) as K.
  cbv zeta in H.
  destruct (max_retries <=? _); simpl in H; inversion H; subst; simpl; auto.
Qed.

Lemma iteration_failed_never_propagates a reply st :
  failed_or_empty (attempt_of a reply st) = true ->
  exists st', after (iteration a reply st) = Some st'.
Proof.
  intros E.
  rewrite (iteration_failed_or_empty _ _ _ E), retry_cases. cbv zeta.
  destruct (max_retries <=? _); simpl; eauto.
Qed.

(** A failed or empty attempt leaves the loop exactly when it is the tenth
    in a row. *)
Lemma iteration_failed_break a reply st :
  failed_or_empty (attempt_of a reply st) = true ->
  (max_retries <= retry_count st + 1 ->
     exists st', iteration a reply st = Break st') /\
  (retry_count st + 1 < max_retries ->
     exists st', iteration a reply st = Next st').
Proof.
  intros E.
  rewrite (iteration_failed_or_empty _ _ _ E), retry_cases. cbv zeta.
  rewrite (try_block_keeps_retry_count a reply st).
  destruct (Z.leb_spec max_retries (retry_count st + 1)); split; intros;
    try lia; eauto.
Qed.

(** After a page with posts the loop goes on only below the budget. *)
Lemma iteration_page_next a reply st st' :
  failed_or_empty (attempt_of a reply st) = false ->
  iteration a reply st = Next st' ->
  query_count st' < max_queries a.
Proof.
  intros E H.
  destruct (iteration_page _ _ _ E) as (posts & n & st1 & Ht & Hn & _ & Hi).
  rewrite Hi in H.
  destruct (accept_page posts n st1) as [[u | e] st2]; try discriminate.
  unfold count_query in H; simpl in H.
  destruct (Z.geb_spec (query_count st2 + 1) (max_queries a)); inversion H;
    subst; simpl; lia.
Qed.

Lemma iteration_propagate a reply st e st' :
  iteration a reply st = Propagate e st' ->
  failed_or_empty (attempt_of a reply st) = false /\
  query_count st' = query_count st.
Proof.
  intros H.
  destruct (failed_or_empty (attempt_of a reply st)) eqn:E.
  - destruct (iteration_failed_never_propagates _ _ _ E) as [st'' Hs].
    rewrite H in Hs; discriminate.
  - split; [reflexivity | ].
    destruct (iteration_page _ _ _ E) as (posts & n & st1 & Ht & Hn & _ & Hi).
    rewrite Hi in H.
    pose proof (try_block_keeps_query_count a reply st) as K.
    rewrite Ht in K; simpl in K.
    pose proof (accept_page_keeps_query_count posts n st1) as K2.
    destruct (accept_page posts n st1) as [[u | e'] st2]; simpl in K2.
    + unfold count_query in H. destruct (_ >=? _); discriminate.
    + inversion H; subst. lia.
Qed.

(** ** The whole loop *)

Lemma loop_nil a st :
  loop a [] st =
  {| journal := []; final := st;
     ending := if loop_test st then OutOfReplies else Returns |}.
Proof. simpl. destruct (loop_test st); reflexivity. Qed.

Lemma loop_cons a reply replies st :
  loop a (reply :: replies) st =
  if loop_test st
  then match iteration a reply st with
       | Next st' => log (attempt_of a reply st) (loop a replies st')
       | Break st' =>
           {| journal := [attempt_of a reply st]; final := st'; ending := Returns |}
       | Propagate e st' =>
           {| journal := [attempt_of a reply st]; final := st'; ending := Raises e |}
       end
  else {| journal := []; final := st; ending := Returns |}.
Proof. reflexivity. Qed.

Lemma pages_cons x j :
  pages (x :: j) = (if failed_or_empty x then 0 else 1) + pages j.
Proof.
  unfold pages; cbn [filter].
  destruct (failed_or_empty x); cbn [negb List.length];
    rewrite ?Nat2Z.inj_succ; lia.
Qed.

Lemma pages_nil : pages [] = 0.
Proof. reflexivity. Qed.

(** The counter at the end of a run, from any state at the loop test. *)
Lemma loop_query_count a replies :
  forall st,
    query_count (final (loop a replies st)) =
    query_count st + pages (journal (loop a replies st))
    - match ending (loop a replies st) with Raises _ => 1 | _ => 0 end.
Proof.
  induction replies as [ | reply replies IH]; intros st.
  - rewrite loop_nil; simpl. destruct (loop_test st); unfold pages; simpl; lia.
  - rewrite loop_cons. destruct (loop_test st); [ | unfold pages; simpl; lia].
    destruct (iteration a reply st) as [st' | st' | e st'] eqn:Hi.
    + assert (Ha : after (iteration a reply st) = Some st') by (rewrite Hi; reflexivity).
      apply iteration_query_count in Ha.
      unfold log; cbn [journal final ending].
      rewrite pages_cons, IH. lia.
    + assert (Ha : after (iteration a reply st) = Some st') by (rewrite Hi; reflexivity).
      apply iteration_query_count in Ha.
      cbn [journal final ending]. rewrite pages_cons, pages_nil. lia.
    + apply iteration_propagate in Hi as [E Hq].
      cbn [journal final ending]. rewrite pages_cons, pages_nil, E. lia.
Qed.

(** The number of accepted pages in a run never passes the budget, except
    that one page is accepted even under a budget below one. *)
Lemma loop_pages_bound a replies :
  forall st,
    query_count st < Z.max 1 (max_queries a) ->
    pages (journal (loop a replies st)) <= Z.max 1 (max_queries a) - query_count st.
Proof.
  induction replies as [ | reply replies IH]; intros st Hq.
  - rewrite loop_nil; unfold pages; simpl; lia.
  - rewrite loop_cons. destruct (loop_test st); [ | unfold pages; simpl; lia].
    destruct (iteration a reply st) as [st' | st' | e st'] eqn:Hi.
    + assert (Ha : after (iteration a reply st) = Some st') by (rewrite Hi; reflexivity).
      apply iteration_query_count in Ha.
      unfold log; cbn [journal]. rewrite pages_cons.
      destruct (failed_or_empty (attempt_of a reply st)) eqn:E.
      * specialize (IH st'). lia.
      * pose proof (iteration_page_next _ _ _ _ E Hi).
        specialize (IH st'). lia.
    + cbn [journal]. rewrite pages_cons, pages_nil.
      destruct (failed_or_empty _); lia.
    + cbn [journal]. rewrite pages_cons, pages_nil.
      destruct (failed_or_empty _); lia.
Qed.

(** Replies that come after the loop is over are never asked for. *)
Lemma loop_app_over a l l' :
  forall st,
    ending (loop a l st) <> OutOfReplies ->
    loop a (l ++ l') st = loop a l st.
Proof.
  induction l as [ | reply l IH]; intros st H.
  - rewrite loop_nil in H; simpl in H.
    destruct (loop_test st) eqn:T; [congruence | ].
    rewrite loop_nil, T. destruct l'; simpl; rewrite T; reflexivity.
  - simpl app. rewrite loop_cons in H. rewrite !loop_cons.
    destruct (loop_test st); auto.
    destruct (iteration a reply st) as [st' | st' | e st']; auto.
    unfold log in *; cbn [ending] in H. rewrite IH; auto.
Qed.

(** A run that stops for want of replies is resumed by the replies that
    follow. *)
Lemma loop_app_resume a l l' :
  forall st,
    ending (loop a l st) = OutOfReplies ->
    loop a (l ++ l') st =
    let r := loop a l' (final (loop a l st)) in
    {| journal := journal (loop a l st) ++ journal r;
       final := final r; ending := ending r |}.
Proof.
  induction l as [ | reply l IH]; intros st H.
  - rewrite loop_nil in *; simpl in *.
    destruct (loop a l' st); reflexivity.
  - simpl app. rewrite loop_cons in H. rewrite !loop_cons.
    destruct (loop_test st); try discriminate.
    destruct (iteration a reply st) as [st' | st' | e st']; try discriminate.
    unfold log in *; cbn [ending journal final] in *.
    rewrite IH; auto.
Qed.

(** At the loop test the retry counter lies between 0 and 9. *)
Lemma loop_retry_count_range a l :
  forall st,
    0 <= retry_count st < max_retries ->
    ending (loop a l st) = OutOfReplies ->
    0 <= retry_count (final (loop a l st)) < max_retries.
Proof.
  induction l as [ | reply l IH]; intros st Hr H.
  - rewrite loop_nil; exact Hr.
  - rewrite loop_cons in *.
    destruct (loop_test st); try discriminate.
    destruct (iteration a reply st) as [st' | st' | e st'] eqn:Hi; try discriminate.
    unfold log in *; cbn [ending final] in *.
    apply IH; auto.
    assert (Ha : after (iteration a reply st) = Some st') by (rewrite Hi; reflexivity).
    apply iteration_retry_count in Ha.
    destruct (failed_or_empty (attempt_of a reply st)) eqn:E.
    + destruct (iteration_failed_break _ _ _ E) as [Hb _].
      destruct (Z_le_gt_dec max_retries (retry_count st + 1)) as [Hle | Hgt].
      * destruct (Hb Hle) as [s Hs]. congruence.
      * lia.
    + unfold max_retries in *; lia.
Qed.

(** Ten failed or empty attempts in a row end the loop with the records it
    had before them. *)
Lemma loop_failures a bad :
  forall st,
    0 <= retry_count st < max_retries ->
    Forall (fun x => failed_or_empty x = true) (journal (loop a bad st)) ->
    max_retries - retry_count st <= Z.of_nat (List.length bad) ->
    ending (loop a bad st) = Returns /\ data (final (loop a bad st)) = data st.
Proof.
  induction bad as [ | reply bad IH]; intros st Hr Hj Hl.
  - simpl List.length in Hl. lia.
  - rewrite loop_cons in *.
    destruct (loop_test st); [ | split; reflexivity].
    destruct (iteration a reply st) as [st' | st' | e st'] eqn:Hi;
      unfold log in *; cbn [ending final journal] in *;
      inversion Hj as [ | x j E Hj']; subst.
    + assert (Ha : after (iteration a reply st) = Some st') by (rewrite Hi; reflexivity).
      pose proof (iteration_retry_count _ _ _ _ Ha) as Hc. rewrite E in Hc.
      pose proof (iteration_failed_data _ _ _ _ E Ha) as Hd.
      destruct (iteration_failed_break _ _ _ E) as [Hb _].
      assert (retry_count st + 1 < max_retries).
      { destruct (Z_le_gt_dec max_retries (retry_count st + 1)) as [Hle | Hgt];
          [ | lia].
        destruct (Hb Hle) as [s Hs]. congruence. }
      destruct (IH st') as [He Hdt]; auto; try lia.
      { simpl List.length in Hl. lia. }
      split; [exact He | congruence].
    + assert (Ha : after (iteration a reply st) = Some st') by (rewrite Hi; reflexivity).
      split; [reflexivity | ].
      exact (iteration_failed_data _ _ _ _ E Ha).
    + apply iteration_propagate in Hi as [E' _]. congruence.
Qed.

(** No journal of the loop has more than ten failed or empty attempts in a
    row. *)
Lemma loop_streak a l :
  forall st,
    0 <= retry_count st < max_retries ->
    longest_streak (retry_count st) (journal (loop a l st)) <= max_retries.
Proof.
  induction l as [ | reply l IH]; intros st Hr.
  - rewrite loop_nil; simpl; lia.
  - rewrite loop_cons.
    destruct (loop_test st); [ | simpl; lia].
    destruct (iteration a reply st) as [st' | st' | e st'] eqn:Hi;
      unfold log; cbn [journal longest_streak].
    + assert (Ha : after (iteration a reply st) = Some st') by (rewrite Hi; reflexivity).
      pose proof (iteration_retry_count _ _ _ _ Ha) as Hc.
      destruct (failed_or_empty (attempt_of a reply st)) eqn:E.
      * destruct (iteration_failed_break _ _ _ E) as [Hb _].
        assert (retry_count st + 1 < max_retries).
        { destruct (Z_le_gt_dec max_retries (retry_count st + 1)) as [Hle | Hgt];
            [ | lia].
          destruct (Hb Hle) as [s Hs]. congruence. }
        rewrite <- Hc. apply IH. lia.
      * specialize (IH st'). rewrite Hc in IH. unfold max_retries in *. lia.
    + destruct (failed_or_empty _); unfold max_retries in *; lia.
    + destruct (failed_or_empty _); unfold max_retries in *; lia.
Qed.

(** ** The pagination cursor *)


Lemma bind_ok {A B : Type} (m : M A) (k : A -> M B) st b st' :
  bind m k st = (Ok b, st') ->
  exists a st1, m st = (Ok a, st1) /\ k a st1 = (Ok b, st').
Proof.
  unfold bind. destruct (m st) as [[a | e] st1]; try discriminate. eauto.
Qed.

Lemma lift_ok {A : Type} (r : res A) st a st' :
  lift r st = (Ok a, st') -> r = Ok a /\ st' = st.
Proof. unfold lift. intros H; inversion H; auto. Qed.

Ltac run_M H :=
  cbv beta iota zeta delta
    [bind lift read assign when ret read_bound result_item res_bind] in H.






(** ** The claims about [download_posts] *)




(** C2.  When [max_retries] consecutive attempts fail or come back empty,
    [download_posts] leaves the loop and returns exactly the records it had
    accumulated before those attempts: whatever run of replies [pre] brought
    the loop to the state [st], if the attempts made on the next replies
    [bad] all fail or are empty and there are at least [max_retries] of
    them, the call returns [data st] -- it returns, it does not raise. *)
Theorem retry_exhaustion_returns_records a pre bad rest st :
  ending (loop a pre initial_state) = OutOfReplies ->
  final (loop a pre initial_state) = st ->
  Forall (fun x => failed_or_empty x = true) (journal (loop a bad st)) ->
  max_retries <= Z.of_nat (List.length bad) ->
  download_posts a (pre ++ bad ++ rest) = Some (Ok (data st)).
Proof.
  intros He Hst Hbad Hlen.
  assert (Hr : 0 <= retry_count st < max_retries).
  { rewrite <- Hst. apply loop_retry_count_range; auto.
    unfold max_retries; simpl; lia. }
  destruct (loop_failures a bad st Hr Hbad) as [Hend Hdata]; [lia | ].
  unfold download_posts.
  rewrite (loop_app_resume _ _ _ _ He). cbv zeta. cbn [ending final].
  rewrite Hst.
  rewrite loop_app_over by (rewrite Hend; discriminate).
  rewrite Hend, Hdata. reflexivity.
Qed.

Lemma retry_exhaustion_returns_records_witness :
  download_posts (args 5)
    ([ok (page (posts_from 0 3) (Some next_url))]
     ++ [NetworkFailure; ok (page [] (Some next_url)); Reply 503 None;
         NetworkFailure; ok (page [] (Some next_url)); Reply 200 None;
         NetworkFailure; NetworkFailure; ok (page [] (Some next_url));
         NetworkFailure]
     ++ [ok (page (posts_from 3 3) None)])
  = Some (Ok (posts_from 0 3)) /\
  List.length
    (journal
       (loop (args 5)
          ([ok (page (posts_from 0 3) (Some next_url))]
           ++ [NetworkFailure; ok (page [] (Some next_url)); Reply 503 None;
               NetworkFailure; ok (page [] (Some next_url)); Reply 200 None;
               NetworkFailure; NetworkFailure; ok (page [] (Some next_url));
               NetworkFailure]
           ++ [ok (page (posts_from 3 3) None)])
          initial_state)) = 11%nat /\
  retry_count
    (final
       (loop (args 5)
          ([ok (page (posts_from 0 3) (Some next_url))]
           ++ [NetworkFailure; ok (page [] (Some next_url)); Reply 503 None;
               NetworkFailure; ok (page [] (Some next_url)); Reply 200 None;
               NetworkFailure; NetworkFailure; ok (page [] (Some next_url));
               NetworkFailure]
           ++ [ok (page (posts_from 3 3) None)])
          initial_state)) = max_retries.
Proof.
  split; [ | split; vm_compute; reflexivity].
  refine (retry_exhaustion_returns_records (args 5) _ _ _ _ _ eq_refl _ _).
  - reflexivity.
  - vm_compute; repeat constructor.
  - vm_compute; discriminate.
Defined.

(** C3 (as amended).  A failed or empty attempt increments the retry counter
    and leaves the loop exactly when the counter has then reached
    [max_retries] = 10 (it need not exceed it); otherwise [download_posts]
    waits [5 * retry_count] seconds and goes back to the loop test.  Hence no
    run of the loop has more than [max_retries] failed or empty attempts in
    a row. *)
Theorem retry_gives_up_at_max_retries a reply st :
  failed_or_empty (attempt_of a reply st) = true ->
  iteration a reply st =
    (let st' := set_retry_count (retry_count st + 1) (snd (try_block a reply st)) in
     if max_retries <=? retry_count st + 1
     then Break st'
     else Next (time_sleep (inject_Z (5 * (retry_count st + 1))) st')) /\
  (forall replies,
     longest_streak 0 (journal (loop a replies initial_state)) <= max_retries).
Proof.
  intros E. split.
  - rewrite (iteration_failed_or_empty _ _ _ E), retry_cases.
    rewrite (try_block_keeps_retry_count a reply st). reflexivity.
  - intros replies.
    apply (loop_streak a replies initial_state).
    unfold max_retries; simpl; lia.
Qed.

Lemma retry_gives_up_at_max_retries_witness :
  iteration (args 5) NetworkFailure initial_state =
    Next (time_sleep (inject_Z 5)
            (set_retry_count 1 (time_sleep (1 # 2) initial_state))) /\
  (forall replies,
     longest_streak 0 (journal (loop (args 5) replies initial_state)) <= max_retries).
Proof.
  exact (retry_gives_up_at_max_retries (args 5) NetworkFailure initial_state eq_refl).
Defined.

(** C3, the claim as stated, fails: the tenth consecutive failure leaves the
    loop while the counter equals [max_retries] and does not exceed it; an
    eleventh reply is never asked for. *)
Lemma tenth_failure_breaks_without_exceeding :
  journal (loop (args 5) (repeat NetworkFailure 11) initial_state)
  = repeat (Failed ConnectionError) 10 /\
  ending (loop (args 5) (repeat NetworkFailure 11) initial_state) = Returns /\
  retry_count (final (loop (args 5) (repeat NetworkFailure 11) initial_state))
  = max_retries /\
  ~ retry_count (final (loop (args 5) (repeat NetworkFailure 11) initial_state))
    > max_retries.
Proof.
  repeat split; try (vm_compute; reflexivity).
  vm_compute; discriminate.
Qed.

(** C5 (as amended).  [query_count] is incremented once per accepted page,
    that is once per attempt that returned at least one record, and by no
    other attempt: when the loop is over it equals the number of such pages
    in the journal (less one when an exception left the function while the
    last page was being accepted). *)
Theorem query_count_is_number_of_pages a replies :
  query_count (final (loop a replies initial_state)) =
  pages (journal (loop a replies initial_state))
  - match ending (loop a replies initial_state) with Raises _ => 1 | _ => 0 end.
Proof.
  rewrite loop_query_count. simpl. lia.
Qed.

(** C5, the claim as stated, fails: three empty pages and then a page of
    five posts are four attempts, and [query_count] ends at 1. *)
Lemma query_count_is_not_number_of_attempts :
  List.length
    (journal (loop (args 5)
                [ok (bare_page []); ok (bare_page []); ok (bare_page []);
                 ok (bare_page (posts_from 0 5))] initial_state)) = 4%nat /\
  query_count
    (final (loop (args 5)
              [ok (bare_page []); ok (bare_page []); ok (bare_page []);
               ok (bare_page (posts_from 0 5))] initial_state)) = 1 /\
  ending (loop (args 5)
            [ok (bare_page []); ok (bare_page []); ok (bare_page []);
             ok (bare_page (posts_from 0 5))] initial_state) = Returns.
Proof. repeat split; vm_compute; reflexivity. Qed.

(** C6 (as amended).  [download_posts] accepts at most [max_queries] pages
    with records when [max_queries] is at least 1, and one page otherwise
    (the budget is tested only after a page has been accepted).  With
    [max_queries = 2] and every call returning 50 posts and a [nextPage]
    URL, the loop is over after exactly 2 calls with exactly 100 records,
    although more data is signalled. *)
Theorem budget_bounds_pages :
  (forall a replies,
     pages (journal (loop a replies initial_state)) <= Z.max 1 (max_queries a)) /\
  (forall rest,
     let replies := ok (page (posts_from 0 50) (Some next_url))
                    :: ok (page (posts_from 50 50) (Some next_url)) :: rest in
     journal (loop (args 2) replies initial_state)
       = [NonEmptyPage 50; NonEmptyPage 50] /\
     more_data (final (loop (args 2) replies initial_state)) = true /\
     download_posts (args 2) replies = Some (Ok (posts_from 0 100))).
Proof.
  split.
  - intros a replies.
    pose proof (loop_pages_bound a replies initial_state) as H.
    simpl query_count in H. lia.
  - intros rest replies.
    assert (H : loop (args 2) replies initial_state =
                loop (args 2)
                  [ok (page (posts_from 0 50) (Some next_url));
                   ok (page (posts_from 50 50) (Some next_url))] initial_state).
    { apply (loop_app_over (args 2) [_; _] rest). vm_compute. discriminate. }
    unfold download_posts. rewrite H.
    repeat split; vm_compute; reflexivity.
Qed.

(** C6, the claim as stated, fails for a budget below one: with
    [max_queries = 0] one page is fetched and accepted all the same. *)
Lemma zero_budget_still_accepts_a_page :
  max_queries (args 0) = 0 /\
  pages (journal (loop (args 0) [ok (page (posts_from 0 1) (Some next_url))]
                    initial_state)) = 1 /\
  download_posts (args 0) [ok (page (posts_from 0 1) (Some next_url))]
  = Some (Ok [post 0]).
Proof. repeat split; vm_compute; reflexivity. Qed.

(** ** The page fetches *)

(** The two endpoints have URLs that are sent. *)
Lemma requests_get_posts a reply :
  requests_get (ct_get_posts_request a) reply =
  match reply with
  | NetworkFailure => Raise ConnectionError
  | Reply s b => Ok {| status_code := s; json_body := b |}
  end.
Proof. reflexivity. Qed.

Lemma requests_get_lists api_token reply :
  requests_get (ct_get_lists_request api_token) reply =
  match reply with
  | NetworkFailure => Raise ConnectionError
  | Reply s b => Ok {| status_code := s; json_body := b |}
  end.
Proof. reflexivity. Qed.

(** What [ct_get_posts] does with the answer of the transport. *)
Lemma ct_get_posts_network_failure a :
  ct_get_posts a NetworkFailure = Raise ConnectionError.
Proof. reflexivity. Qed.

Lemma ct_get_posts_error_status a s body :
  400 <= s < 600 -> ct_get_posts a (Reply s body) = Raise HTTPError.
Proof.
  intros H. unfold ct_get_posts, raise_for_status.
  rewrite requests_get_posts; simpl.
  destruct (Z.eqb_spec s 200); [lia | ]. simpl.
  destruct (Z.leb_spec 400 s); [ | lia].
  destruct (Z.ltb_spec s 600); [ | lia]. reflexivity.
Qed.

Lemma ct_get_posts_success a s v :
  200 <= s < 300 -> ct_get_posts a (Reply s (Some v)) = Ok v.
Proof.
  intros H. unfold ct_get_posts, raise_for_status.
  rewrite requests_get_posts; simpl.
  destruct (Z.eqb_spec s 200); simpl; [reflexivity | ].
  destruct (Z.leb_spec 400 s); [lia | ]. reflexivity.
Qed.

(** The follow-up fetch never looks at the status. *)
Lemma get_next_page_any_status u s v :
  http_url u = true ->
  get_next_page (PyStr u) (Reply s (Some v)) = Ok v.
Proof.
  intros H. unfold get_next_page, requests_get; cbn [url]. rewrite H.
  reflexivity.
Qed.

Lemma get_next_page_network_failure u :
  http_url u = true ->
  get_next_page (PyStr u) NetworkFailure = Raise ConnectionError.
Proof.
  intros H. unfold get_next_page, requests_get; cbn [url]. rewrite H.
  reflexivity.
Qed.

(** A next-page URL that is not an http(s) URL is refused whatever the
    server would have answered. *)
Lemma get_next_page_refused v reply :
  match v with PyStr u => http_url u = false | _ => True end ->
  get_next_page v reply = Raise URLRefused.
Proof.
  unfold get_next_page, requests_get; cbn [url].
  destruct v; try reflexivity. intros ->. reflexivity.
Qed.

(** C7, evaluated where the code departs from the claim.  The follow-up GET
    answered with status 500 does not fail: the body is parsed and handed on
    as a page, and its posts are collected, whereas [ct_get_posts] raises on
    the same answer.  [ct_get_posts] itself raises for the statuses 400 to
    599 only, so that an answer with status 304 is returned as well.  An
    error body sent with status 429 is likewise returned by the follow-up
    fetch as if it were a page. *)
Theorem follow_up_fetch_ignores_status :
  get_next_page (PyStr next_url) (Reply 500 (Some (page (posts_from 3 2) None)))
  = Ok (page (posts_from 3 2) None) /\
  ct_get_posts (first_query (args 5)) (Reply 500 (Some (page (posts_from 3 2) None)))
  = Raise HTTPError /\
  download_posts (args 5)
    [ok (page (posts_from 0 3) (Some next_url));
     Reply 500 (Some (page (posts_from 3 2) None))]
  = Some (Ok (posts_from 0 5)) /\
  ct_get_posts (first_query (args 5)) (Reply 304 (Some (page (posts_from 0 3) None)))
  = Ok (page (posts_from 0 3) None) /\
  get_next_page (PyStr next_url)
    (Reply 429 (Some (PyDict [("status", PyInt 429);
                              ("message", PyStr "Rate limit exceeded")])))
  = Ok (PyDict [("status", PyInt 429); ("message", PyStr "Rate limit exceeded")]).
Proof. repeat split; vm_compute; reflexivity. Qed.

(** ** The parameters of [ct_get_posts] *)

(** The dictionary [PARAMS] always has [count], [sortBy], [token],
    [minInteractions] and [offset], whatever their values.  It has
    [startDate], [endDate], [types], [searchTerm] and [listIds] exactly when
    the argument is given a true value (neither [None] nor empty) and
    [includeHistory] exactly when the argument equals "true"; it has nothing
    else. *)
Lemma params_transmitted a :
  (dict_get "count" (PARAMS a) = Some (count a) /\
   dict_get "sortBy" (PARAMS a) = Some (sort_by a) /\
   dict_get "token" (PARAMS a) = Some (api_token a) /\
   dict_get "minInteractions" (PARAMS a) = Some (min_interactions a) /\
   dict_get "offset" (PARAMS a) = Some (offset a)) /\
  (dict_get "startDate" (PARAMS a)
     = (if truthy (start_time a) then Some (start_time a) else None) /\
   dict_get "endDate" (PARAMS a)
     = (if truthy (end_time a) then Some (end_time a) else None) /\
   dict_get "includeHistory" (PARAMS a)
     = (if eq_str (include_history a) "true" then Some (include_history a) else None) /\
   dict_get "types" (PARAMS a)
     = (if truthy (types a) then Some (types a) else None) /\
   dict_get "searchTerm" (PARAMS a)
     = (if truthy (search_term a) then Some (search_term a) else None) /\
   dict_get "listIds" (PARAMS a)
     = (if truthy (listIds a) then Some (listIds a) else None)) /\
  incl (dict_keys (PARAMS a)) (fixed_params ++ optional_params).
Proof.
  unfold PARAMS, set_if.
  destruct (truthy (start_time a)), (truthy (end_time a)),
    (eq_str (include_history a) "true"), (truthy (types a)),
    (truthy (search_term a)), (truthy (listIds a));
    (split; [ | split]);
    try (repeat split; reflexivity);
    (intros k Hk; cbn in Hk |- *; tauto).
Qed.

(** The dictionary [PARAMS] of a call that leaves every argument at its
    default. *)
Lemma defaults_are_transmitted :
  count default_args = PyInt 10 /\
  dict_get "count" (PARAMS default_args) = Some (PyInt 10) /\
  PARAMS default_args =
    [("count", PyInt 10); ("sortBy", PyStr "date"); ("token", PyNone);
     ("minInteractions", PyInt 0); ("offset", PyInt 0)].
Proof. repeat split. Qed.

Lemma in_query_of (d : dict) k v :
  In (k, v) (query_of d) <-> exists w, In (k, w) d /\ In v (values_sent w).
Proof.
  unfold query_of. rewrite in_flat_map. split.
  - intros ([k' w] & Hin & Hm). cbn [fst snd] in Hm.
    apply in_map_iff in Hm as (x & E & Hx). inversion E; subst. eauto.
  - intros (w & Hin & Hv). exists (k, w). split; [exact Hin | ].
    cbn [fst snd]. apply in_map_iff. eauto.
Qed.

Lemma dict_get_in (d : dict) :
  NoDup (dict_keys d) ->
  forall k w, In (k, w) d <-> dict_get k d = Some w.
Proof.
  induction d as [ | [k' w'] d IH]; intros Hnd k w; cbn [dict_get In].
  - split; [contradiction | discriminate].
  - cbn in Hnd. inversion Hnd as [ | x l Hnotin Hnd']; subst.
    destruct (String.eqb_spec k k') as [-> | Hne].
    + split.
      * intros [E | Hin]; [inversion E; reflexivity | ].
        exfalso. apply Hnotin. unfold dict_keys.
        apply in_map_iff. exists (k', w). auto.
      * intros E; inversion E; auto.
    + rewrite <- (IH Hnd'). split.
      * intros [E | Hin]; [inversion E; congruence | exact Hin].
      * auto.
Qed.

Lemma PARAMS_keys_once a : NoDup (dict_keys (PARAMS a)).
Proof.
  unfold PARAMS, set_if.
  destruct (truthy (start_time a)), (truthy (end_time a)),
    (eq_str (include_history a) "true"), (truthy (types a)),
    (truthy (search_term a)), (truthy (listIds a));
    cbn; repeat (constructor; [cbn; intuition discriminate | ]); constructor.
Qed.

Lemma in_query_of_PARAMS a k v :
  In (k, v) (query_of (PARAMS a)) <->
  exists w, dict_get k (PARAMS a) = Some w /\ In v (values_sent w).
Proof.
  rewrite in_query_of. split; intros (w & H & Hv); exists w; split; auto;
    apply (dict_get_in _ (PARAMS_keys_once a)); exact H.
Qed.

(** C8 (as amended).  [ct_get_posts] puts [count], [sortBy], [token],
    [minInteractions] and [offset] into the parameter set whatever their
    values, the defaults included; it puts [startDate], [endDate], [types],
    [searchTerm] and [listIds] there only when the argument has a true value
    and [includeHistory] only when the argument equals "true".  Of that set
    every entry is transmitted whose value is not [None] (a list element by
    element), and nothing else is.  So a parameter left at a default that is
    a value is transmitted, the token is transmitted exactly when
    [api_token] is not [None], and an optional parameter left absent is not
    transmitted. *)
Theorem query_parameters_transmitted a :
  let sent := query_of (params (ct_get_posts_request a)) in
  ((forall v, In ("count", v) sent <-> In v (values_sent (count a))) /\
   (forall v, In ("sortBy", v) sent <-> In v (values_sent (sort_by a))) /\
   (forall v, In ("token", v) sent <-> In v (values_sent (api_token a))) /\
   (forall v, In ("minInteractions", v) sent
              <-> In v (values_sent (min_interactions a))) /\
   (forall v, In ("offset", v) sent <-> In v (values_sent (offset a)))) /\
  ((forall v, In ("startDate", v) sent
              <-> truthy (start_time a) = true /\ In v (values_sent (start_time a))) /\
   (forall v, In ("endDate", v) sent
              <-> truthy (end_time a) = true /\ In v (values_sent (end_time a))) /\
   (forall v, In ("includeHistory", v) sent
              <-> eq_str (include_history a) "true" = true /\ v = PyStr "true") /\
   (forall v, In ("types", v) sent
              <-> truthy (types a) = true /\ In v (values_sent (types a))) /\
   (forall v, In ("searchTerm", v) sent
              <-> truthy (search_term a) = true /\ In v (values_sent (search_term a))) /\
   (forall v, In ("listIds", v) sent
              <-> truthy (listIds a) = true /\ In v (values_sent (listIds a)))) /\
  (forall k v, In (k, v) sent -> In k (fixed_params ++ optional_params)) /\
  values_sent PyNone = [].
Proof.
  cbv zeta. cbn [params ct_get_posts_request].
  destruct (params_transmitted a)
    as ((Hc & Hs & Ht & Hm & Ho) & (H1 & H2 & H3 & H4 & H5 & H6) & Hk).
  assert (Always : forall k x,
             dict_get k (PARAMS a) = Some x ->
             forall v, In (k, v) (query_of (PARAMS a)) <-> In v (values_sent x)).
  { intros k x E v. rewrite in_query_of_PARAMS, E. split.
    - intros (w & Ew & Hv). inversion Ew; subst. exact Hv.
    - eauto. }
  assert (Maybe : forall k (c : bool) x,
             dict_get k (PARAMS a) = (if c then Some x else None) ->
             forall v, In (k, v) (query_of (PARAMS a))
                       <-> c = true /\ In v (values_sent x)).
  { intros k c x E v. rewrite in_query_of_PARAMS, E. destruct c; split.
    - intros (w & Ew & Hv). inversion Ew; subst. auto.
    - intros [_ Hv]. eauto.
    - intros (w & Ew & _). discriminate.
    - intros [Hc' _]. discriminate. }
  split; [ | split; [ | split; [ | reflexivity]]].
  - split; [ | split; [ | split; [ | split]]]; intros v; apply Always; assumption.
  - split; [ | split; [ | split; [ | split; [ | split]]]]; intros v.
    1, 2, 4, 5, 6: apply Maybe; assumption.
    rewrite (Maybe _ _ _ H3 v).
    split; intros [Hh Hv]; (split; [exact Hh | ]);
      destruct (include_history a); try discriminate Hh; cbn in Hh;
      apply String.eqb_eq in Hh; subst.
    + cbn in Hv. destruct Hv as [<- | []]. reflexivity.
    + cbn. auto.
  - intros k v Hin. apply in_query_of in Hin as (w & Hin & _).
    apply Hk. unfold dict_keys. apply in_map_iff. exists (k, w). auto.
Qed.

(** C8, the claim as stated, fails: a call that leaves every argument at its
    default transmits [count], [sortBy], [minInteractions] and [offset] with
    their default values, and it transmits no token, whose default is
    [None]. *)
Lemma default_call_sends_defaults_and_no_token :
  count default_args = PyInt 10 /\
  api_token default_args = PyNone /\
  query_of (params (ct_get_posts_request default_args)) =
    [("count", PyInt 10); ("sortBy", PyStr "date");
     ("minInteractions", PyInt 0); ("offset", PyInt 0)].
Proof. repeat split. Qed.

(** ** The post model *)

Import FbModel.

Lemma path_reaches_functional v keys w1 w2 :
  path_reaches v keys w1 -> path_reaches v keys w2 -> w1 = w2.
Proof.
  intros H1; revert w2.
  induction H1 as [v | d k v keys w Hk Hp IH]; intros w2 H2.
  - inversion H2; reflexivity.
  - inversion H2; subst. apply IH.
    assert (v = v0) by congruence. subst. assumption.
Qed.

(** The loop of [get_dict_val] computes the value the path reaches, and
    [None] when the path reaches nothing. *)
Lemma get_dict_val_loop_spec keys :
  forall retval,
    forallb hashable keys = true ->
    exists v,
      get_dict_val_loop retval keys = Ok v /\
      (forall w, path_reaches retval keys w -> v = w) /\
      ((forall w, ~ path_reaches retval keys w) -> v = PyNone).
Proof.
  induction keys as [ | k keys IH]; intros retval Hh.
  - exists retval. split; [reflexivity | split].
    + intros w H; inversion H; reflexivity.
    + intros H. exfalso. apply (H retval). constructor.
  - simpl in Hh. apply andb_true_iff in Hh as [Hk Hh].
    assert (Hnone : forall r',
               (forall w, ~ path_reaches r' (k :: keys) w) ->
               get_dict_val_loop r' (k :: keys) = Ok PyNone ->
               exists v,
                 get_dict_val_loop r' (k :: keys) = Ok v /\
                 (forall w, path_reaches r' (k :: keys) w -> v = w) /\
                 ((forall w, ~ path_reaches r' (k :: keys) w) -> v = PyNone)).
    { intros r' Hno Heq. exists PyNone. split; [exact Heq | split].
      - intros w Hw. destruct (Hno w Hw).
      - reflexivity. }
    destruct retval as [ | b | z | s | l | d];
      try (apply Hnone; [intros w H; inversion H | reflexivity]).
    destruct k as [ | b | z | s | l | d']; try discriminate Hk;
      try (apply Hnone; [intros w H; inversion H | reflexivity]).
    cbn [get_dict_val_loop dict_contains dict_getitem hashable getitem res_bind].
    unfold dict_has.
    destruct (dict_get s d) as [x | ] eqn:Hx.
    + destruct (IH x Hh) as (v & Hv & Hreach & Hnot).
      exists v. split; [exact Hv | split].
      * intros w H. inversion H; subst. apply Hreach.
        assert (x = v0) by congruence. subst. assumption.
      * intros H. apply Hnot. intros w Hw.
        apply (H w). econstructor; eassumption.
    + exists PyNone. split; [reflexivity | split].
      * intros w H. inversion H; subst. congruence.
      * reflexivity.
Qed.





(** The accessors on a post that lacks the field they read. *)
Lemma accessors_on_missing_fields (str : pyval -> string) (d : dict) :
  let self := {| post_object := PyDict d |} in
  (dict_get "id" d = None -> get_post_ID str self = Ok PyNone) /\
  (dict_get "account" d = None -> get_user_ID str self = Ok PyNone) /\
  (dict_get "postUrl" d = None -> get_link_to_post self = Ok PyNone) /\
  (dict_get "expandedLinks" d = None -> get_URLs self = Ok (PyList [])) /\
  (dict_get "media" d = None -> get_media self = Ok (PyList [])).
Proof.
  unfold get_post_ID, get_user_ID, get_link_to_post, get_URLs, get_media,
    get_value, get_dict_val; simpl.
  unfold dict_has.
  repeat split; intros H; rewrite H; reflexivity.
Qed.

(** C10, evaluated where the code departs from the claim.  [get_media]
    raises [KeyError] on a media item without [url] (or without [type]), and
    [get_URLs] on an [expandedLinks] item without [expanded]; the key [full]
    of the same item is looked for before it is read. *)
Theorem list_item_without_field_raises :
  get_media
    {| post_object :=
         PyDict [("id", PyInt 7);
                 ("media", PyList [PyDict [("type", PyStr "photo")]])] |}
  = Raise KeyError /\
  get_media
    {| post_object :=
         PyDict [("id", PyInt 7);
                 ("media", PyList [PyDict [("url", PyStr "https://x.test/1.jpg")]])] |}
  = Raise KeyError /\
  get_URLs
    {| post_object :=
         PyDict [("id", PyInt 7);
                 ("expandedLinks",
                   PyList [PyDict [("original", PyStr "https://x.test/a")]])] |}
  = Raise KeyError /\
  get_media
    {| post_object :=
         PyDict [("id", PyInt 7);
                 ("media",
                   PyList [PyDict [("type", PyStr "photo");
                                   ("url", PyStr "https://x.test/1.jpg")]])] |}
  = Ok (PyList [PyDict [("media_url", PyStr "https://x.test/1.jpg");
                        ("media_type", PyStr "photo")]]).
Proof. repeat split. Qed.

(** ** Termination *)

(** The loop is over after at most ten attempts per page of the budget. *)
Lemma loop_terminates a replies :
  forall st,
    0 <= retry_count st < max_retries ->
    query_count st < Z.max 1 (max_queries a) ->
    10 * (Z.max 1 (max_queries a) - query_count st) - retry_count st
      <= Z.of_nat (List.length replies) ->
    ending (loop a replies st) <> OutOfReplies.
Proof.
  unfold max_retries.
  induction replies as [ | reply replies IH]; intros st Hr Hq Hl.
  - simpl List.length in Hl. lia.
  - rewrite loop_cons. destruct (loop_test st); [ | discriminate].
    destruct (iteration a reply st) as [st' | st' | e st'] eqn:Hi;
      try discriminate.
    unfold log; cbn [ending].
    assert (Ha : after (iteration a reply st) = Some st') by (rewrite Hi; reflexivity).
    pose proof (iteration_retry_count _ _ _ _ Ha) as Hc.
    pose proof (iteration_query_count _ _ _ _ Ha) as Hn.
    simpl List.length in Hl. rewrite Nat2Z.inj_succ in Hl.
    destruct (failed_or_empty (attempt_of a reply st)) eqn:E.
    + destruct (iteration_failed_break _ _ _ E) as [Hb _].
      assert (retry_count st + 1 < 10).
      { destruct (Z_le_gt_dec max_retries (retry_count st + 1)) as [Hle | Hgt];
          [ | unfold max_retries in Hgt; lia].
        destruct (Hb Hle) as [s Hs]. congruence. }
      apply IH; lia.
    + pose proof (iteration_page_next _ _ _ _ E Hi).
      apply IH; lia.
Qed.

Lemma download_posts_terminates a replies :
  10 * Z.max 1 (max_queries a) <= Z.of_nat (List.length replies) ->
  download_posts a replies <> None.
Proof.
  intros H. unfold download_posts.
  pose proof (loop_terminates a replies initial_state) as T.
  destruct (ending (loop a replies initial_state)); try discriminate.
  exfalso. apply T; cbn [retry_count query_count initial_state];
    unfold max_retries; try lia.
  reflexivity.
Qed.

(** * Further properties of the collector *)

(** ** Exceptions of the primitive operations *)

Lemma getitem_raises v k e :
  getitem v k = Raise e -> e = KeyError \/ e = TypeError.
Proof.
  destruct v; simpl; try (intros H; inversion H; auto; fail).
  destruct (dict_get k d); intros H; inversion H; auto.
Qed.

Lemma len_raises v e : len v = Raise e -> e = TypeError.
Proof. destruct v; simpl; intros H; inversion H; auto. Qed.

Lemma contains_raises k v e : contains k v = Raise e -> e = TypeError.
Proof. destruct v; simpl; intros H; inversion H; auto. Qed.

Lemma result_item_raises results k e :
  result_item results k = Raise e -> e = KeyError \/ e = TypeError.
Proof.
  unfold result_item, res_bind.
  destruct (getitem results "result") eqn:E.
  - apply getitem_raises.
  - intros H; inversion H; subst. eapply getitem_raises; eassumption.
Qed.

Lemma chars_length s : List.length (chars s) = String.length s.
Proof. induction s; simpl; auto. Qed.

Lemma len_iter v n items :
  len v = Ok n -> iter v = Ok items -> n = Z.of_nat (List.length items).
Proof.
  destruct v; simpl; try discriminate; intros H1 H2;
    inversion H1; inversion H2; subst.
  - rewrite chars_length; reflexivity.
  - reflexivity.
  - unfold dict_keys. rewrite !length_map. reflexivity.
Qed.

Lemma seq_index_first x l : seq_index (x :: l) 0 = Ok x.
Proof.
  unfold seq_index. cbn [List.length].
  rewrite Nat2Z.inj_succ. cbn [Z.ltb Z.compare].
  destruct (Z.leb_spec 0 0); [ | lia].
  destruct (Z.ltb_spec 0 (Z.succ (Z.of_nat (List.length l)))); [ | lia].
  reflexivity.
Qed.

Lemma nth_last (l : list pyval) d :
  l <> [] -> nth (List.length l - 1) l d = last l d.
Proof.
  induction l as [ | x l IH]; [congruence | ]. intros _.
  destruct l as [ | y l]; [reflexivity | ].
  change (last (x :: y :: l) d) with (last (y :: l) d).
  rewrite <- IH by discriminate.
  cbn [List.length]. replace (S (S (List.length l)) - 1)%nat
    with (S (S (List.length l) - 1)) by lia.
  reflexivity.
Qed.

Lemma seq_index_last x l : seq_index (x :: l) (-1) = Ok (last (x :: l) PyNone).
Proof.
  unfold seq_index.
  set (n := List.length (x :: l)).
  assert (Hn : (0 < n)%nat) by (unfold n; simpl; lia).
  change (-1 <? 0) with true. cbv iota.
  destruct (Z.leb_spec 0 (Z.of_nat n + -1)); [ | lia].
  destruct (Z.ltb_spec (Z.of_nat n + -1) (Z.of_nat n)); [ | lia].
  cbn [andb].
  replace (Z.to_nat (Z.of_nat n + -1)) with (n - 1)%nat by lia.
  rewrite nth_error_nth' with (d := PyNone) by lia.
  unfold n. rewrite nth_last by discriminate. reflexivity.
Qed.

Lemma getitem_has_field v k :
  match getitem v k with
  | Ok _ => has_field k v = true
  | Raise e => has_field k v = false /\ (e = KeyError \/ e = TypeError)
  end.
Proof.
  destruct v; simpl; auto.
  unfold dict_has. destruct (dict_get k d); auto.
Qed.

(** ** Accepting a page *)

(** What lines 255-270 do with a page that has [n <> 0] posts. *)
Lemma accept_page_cases posts n st :
  len posts = Ok n -> n <> 0 ->
  if dated_ends posts
  then exists l,
         posts = PyList l /\
         accept_page posts n st =
           (Ok tt, set_total_posts (total_posts st + n)
                     (set_data (data st ++ l) (set_retry_count 0 st)))
  else exists e,
         (e = KeyError \/ e = TypeError) /\
         accept_page posts n st = (Raise e, set_retry_count 0 st).
Proof.
  intros Hlen Hn.
  destruct posts as [ | b | z | s | l | d]; simpl in Hlen; try discriminate;
    inversion Hlen; subst n; clear Hlen.
  - (* a string *)
    destruct s as [ | c s]; [simpl in Hn; congruence | ].
    cbn [dated_ends]. exists TypeError. split; [auto | ].
    unfold accept_page, bind, lift, assign, getitem_int.
    cbn [chars]. rewrite seq_index_first. reflexivity.
  - (* a list *)
    destruct l as [ | x l]; [simpl in Hn; congruence | ].
    unfold dated_ends. cbn [hd].
    unfold accept_page, bind, lift, assign, read, getitem_int.
    rewrite seq_index_first, seq_index_last.
    pose proof (getitem_has_field x "date") as H1.
    pose proof (getitem_has_field (last (x :: l) PyNone) "date") as H2.
    destruct (getitem x "date") as [d1 | e1].
    + rewrite H1. cbn [andb].
      destruct (getitem (last (x :: l) PyNone) "date") as [d2 | e2].
      * rewrite H2. exists (x :: l). split; reflexivity.
      * destruct H2 as [-> He]. exists e2. split; [exact He | reflexivity].
    + destruct H1 as [-> He]. cbn [andb]. exists e1. split; [exact He | reflexivity].
  - (* a dictionary *)
    cbn [dated_ends]. exists KeyError. split; [auto | reflexivity].
Qed.

Lemma try_block_len a reply st posts n st1 :
  try_block a reply st = (Ok (posts, n), st1) -> len posts = Ok n.
Proof.
  unfold try_block. intros H.
  apply bind_ok in H as (results & s0 & _ & H).
  unfold process_page in H.
  apply bind_ok in H as (posts' & s1 & _ & H).
  apply bind_ok in H as (n' & s2 & H2 & H).
  apply lift_ok in H2 as [Hl _].
  apply bind_ok in H as (u & s3 & _ & H).
  apply bind_ok in H as (u' & s4 & _ & H).
  unfold ret in H. inversion H; subst. exact Hl.
Qed.



(** X3.  A page with posts is accepted exactly when [posts] is a list whose
    first and last elements are dictionaries with a [date] (no other post is
    inspected); all its elements are then appended, in order, and
    [total_posts] grows by their number.  Otherwise a [KeyError] or a
    [TypeError] is raised outside the [try] block, before anything is
    appended. *)
Theorem page_accepted_iff_ends_dated posts n st :
  len posts = Ok n -> n <> 0 ->
  (fst (accept_page posts n st) = Ok tt <-> dated_ends posts = true) /\
  (dated_ends posts = true ->
     exists l, posts = PyList l /\
               data (snd (accept_page posts n st)) = (data st ++ l)%list /\
               total_posts (snd (accept_page posts n st))
               = total_posts st + Z.of_nat (List.length l)) /\
  (dated_ends posts = false ->
     (fst (accept_page posts n st) = Raise KeyError \/
      fst (accept_page posts n st) = Raise TypeError) /\
     data (snd (accept_page posts n st)) = data st /\
     total_posts (snd (accept_page posts n st)) = total_posts st).
Proof.
  intros Hlen Hn.
  pose proof (accept_page_cases posts n st Hlen Hn) as H.
  destruct (dated_ends posts).
  - destruct H as (l & -> & ->). cbn [fst snd].
    split; [split; reflexivity | split].
    + intros _. exists l. simpl in Hlen. inversion Hlen; subst.
      repeat split; reflexivity.
    + discriminate.
  - destruct H as (e & He & ->). cbn [fst snd].
    split; [split; [destruct He; subst; discriminate | discriminate] | split].
    + discriminate.
    + intros _. split; [destruct He; subst; auto | split; reflexivity].
Qed.

Lemma page_accepted_iff_ends_dated_witness :
  data (snd (accept_page (PyList (posts_from 0 3)) 3 initial_state))
  = posts_from 0 3 /\
  fst (accept_page (PyList [PyDict [("id", PyInt 1)]]) 1 initial_state)
  = Raise KeyError.
Proof.
  split.
  - destruct (page_accepted_iff_ends_dated (PyList (posts_from 0 3)) 3
                initial_state eq_refl ltac:(discriminate))
      as (_ & H & _).
    destruct (H eq_refl) as (l & Hl & Hd & _).
    inversion Hl; subst. exact Hd.
  - destruct (page_accepted_iff_ends_dated (PyList [PyDict [("id", PyInt 1)]]) 1
                initial_state eq_refl ltac:(discriminate))
      as (_ & _ & H).
    destruct (H eq_refl) as ([H1 | H1] & _); [exact H1 | discriminate H1].
Defined.

(** ** The records collected *)

(** What an iteration does to [data] and [total_posts]. *)
Lemma iteration_records a reply st :
  match iteration a reply st with
  | Next st' | Break st' =>
      match attempt_of a reply st with
      | NonEmptyPage n =>
          exists l, n = Z.of_nat (List.length l) /\
                    data st' = (data st ++ l)%list /\
                    total_posts st' = total_posts st + n
      | _ => data st' = data st /\ total_posts st' = total_posts st
      end
  | Propagate e st' =>
      (e = KeyError \/ e = TypeError) /\
      data st' = data st /\ total_posts st' = total_posts st
  end.
Proof.
  pose proof (try_block_keeps_data a reply st) as Kd.
  pose proof (try_block_keeps_total_posts a reply st) as Kt.
  destruct (failed_or_empty (attempt_of a reply st)) eqn:E.
  - rewrite (iteration_failed_or_empty _ _ _ E), retry_cases. cbv zeta.
    destruct (max_retries <=? _);
      destruct (attempt_of a reply st); try discriminate E;
      cbn; auto.
  - destruct (iteration_page _ _ _ E) as (posts & n & st1 & Ht & Hn & Ha & Hi).
    rewrite Hi, Ha. rewrite Ht in Kd, Kt; simpl in Kd, Kt.
    pose proof (accept_page_cases posts n st1 (try_block_len _ _ _ _ _ _ Ht) Hn) as Hc.
    destruct (dated_ends posts).
    + destruct Hc as (l & -> & ->).
      pose proof (try_block_len _ _ _ _ _ _ Ht) as Hl. simpl in Hl.
      inversion Hl; subst n.
      unfold count_query. destruct (_ >=? _); exists l; cbn;
        rewrite Kd, Kt; auto.
    + destruct Hc as (e & He & ->). cbn. auto.
Qed.

Lemma loop_data_invariants a replies :
  forall st,
    let r := loop a replies st in
    (exists extra, data (final r) = (data st ++ extra)%list) /\
    (total_posts st = Z.of_nat (List.length (data st)) ->
       total_posts (final r) = Z.of_nat (List.length (data (final r)))) /\
    (forall e, ending r = Raises e -> e = KeyError \/ e = TypeError) /\
    (match ending r with
     | Raises _ => True
     | _ => Z.of_nat (List.length (data (final r)))
            = Z.of_nat (List.length (data st)) + records (journal r)
     end).
Proof.
  induction replies as [ | reply replies IH]; intros st; cbv zeta.
  - rewrite loop_nil; cbn [final journal ending records].
    split; [exists []; rewrite app_nil_r; reflexivity | ].
    split; [auto | split].
    + destruct (loop_test st); discriminate.
    + destruct (loop_test st); lia.
  - rewrite loop_cons.
    destruct (loop_test st).
    2:{ cbn [final journal ending records].
        split; [exists []; rewrite app_nil_r; reflexivity | ].
        split; [auto | split]; [discriminate | lia]. }
    pose proof (iteration_records a reply st) as Hr.
    destruct (iteration a reply st) as [st' | st' | e st'].
    + specialize (IH st'). cbv zeta in IH.
      destruct IH as ((extra & Hx) & Ht & He & Hc).
      unfold log; cbn [final journal ending].
      destruct (attempt_of a reply st) as [e0 | | n].
      * destruct Hr as [Hd Htp]. rewrite Hd, Htp in *.
        split; [eauto | split; [exact Ht | split; [exact He | exact Hc]]].
      * destruct Hr as [Hd Htp]. rewrite Hd, Htp in *.
        split; [eauto | split; [exact Ht | split; [exact He | exact Hc]]].
      * destruct Hr as (l & Hn & Hd & Htp).
        split; [exists (l ++ extra)%list; rewrite Hx, Hd, app_assoc; reflexivity | ].
        split; [ | split; [exact He | ]].
        -- intros H0. apply Ht. rewrite Htp, Hd, H0, length_app. lia.
        -- destruct (ending (loop a replies st')); auto;
             cbn [records]; rewrite Hc, Hd, length_app; lia.
    + cbn [final journal ending].
      destruct (attempt_of a reply st) as [e0 | | n].
      * destruct Hr as [Hd Htp]. rewrite Hd, Htp.
        split; [exists []; rewrite app_nil_r; reflexivity | ].
        split; [auto | split]; [discriminate | cbn [records]; lia].
      * destruct Hr as [Hd Htp]. rewrite Hd, Htp.
        split; [exists []; rewrite app_nil_r; reflexivity | ].
        split; [auto | split]; [discriminate | cbn [records]; lia].
      * destruct Hr as (l & Hn & Hd & Htp). rewrite Hd, Htp.
        split; [eauto | split; [ | split]].
        -- intros H0. rewrite H0, length_app. lia.
        -- discriminate.
        -- cbn [records]. rewrite length_app. lia.
    + cbn [final journal ending].
      destruct Hr as (He & Hd & Htp). rewrite Hd, Htp.
      split; [exists []; rewrite app_nil_r; reflexivity | ].
      split; [auto | split]; [ | exact I].
      intros e' H; inversion H; subst; exact He.
Qed.

(** X2.  The only exceptions [download_posts] lets through to its caller
    are a [KeyError] and a [TypeError], raised when the [date] of the first
    or last post of a page is read; no transport error ever escapes. *)
Theorem download_posts_raises_only_on_dates a replies e :
  download_posts a replies = Some (Raise e) -> e = KeyError \/ e = TypeError.
Proof.
  unfold download_posts.
  destruct (loop_data_invariants a replies initial_state) as (_ & _ & H & _).
  cbv zeta in H.
  destruct (ending (loop a replies initial_state)) as [ | e' | ];
    try discriminate.
  intros E; inversion E; subst. apply H. reflexivity.
Qed.

Lemma download_posts_raises_only_on_dates_witness :
  download_posts (args 5) [ok (page [PyDict [("id", PyInt 1)]] None)]
  = Some (Raise KeyError) /\
  (KeyError = KeyError \/ KeyError = TypeError).
Proof.
  split; [reflexivity | ].
  exact (download_posts_raises_only_on_dates (args 5)
           [ok (page [PyDict [("id", PyInt 1)]] None)] KeyError eq_refl).
Defined.

(** X4.  [total_posts] is at every moment the number of records in [data]:
    whatever the replies, it equals the length of [data] when the loop is
    over. *)
Theorem total_posts_is_length_of_data a replies :
  total_posts (final (loop a replies initial_state))
  = Z.of_nat (List.length (data (final (loop a replies initial_state)))).
Proof.
  destruct (loop_data_invariants a replies initial_state) as (_ & H & _).
  apply H. reflexivity.
Qed.

(** X5.  The number of records [download_posts] returns is the sum of the
    sizes of the pages it accepted. *)
Theorem returned_records_are_the_accepted_pages a replies d :
  download_posts a replies = Some (Ok d) ->
  Z.of_nat (List.length d) = records (journal (loop a replies initial_state)).
Proof.
  unfold download_posts.
  destruct (loop_data_invariants a replies initial_state) as (_ & _ & _ & H).
  cbv zeta in H.
  destruct (ending (loop a replies initial_state)); try discriminate.
  intros E; inversion E; subst. rewrite H. simpl. lia.
Qed.

Lemma returned_records_are_the_accepted_pages_witness :
  Z.of_nat (List.length (posts_from 0 5)) =
  records (journal (loop (args 5)
                      [ok (page (posts_from 0 3) (Some next_url)); NetworkFailure;
                       ok (page (posts_from 3 2) None)] initial_state)).
Proof.
  exact (returned_records_are_the_accepted_pages (args 5)
           [ok (page (posts_from 0 3) (Some next_url)); NetworkFailure;
            ok (page (posts_from 3 2) None)] (posts_from 0 5) eq_refl).
Defined.

(** X6.  Collected records are never dropped or reordered: the records held
    after a run of replies are a prefix of the records held after any longer
    run. *)
Theorem data_only_grows a pre more st :
  exists extra,
    data (final (loop a (pre ++ more) st))
    = (data (final (loop a pre st)) ++ extra)%list.
Proof.
  destruct (ending (loop a pre st)) eqn:E.
  - rewrite loop_app_over by (rewrite E; discriminate).
    exists []. rewrite app_nil_r. reflexivity.
  - rewrite loop_app_over by (rewrite E; discriminate).
    exists []. rewrite app_nil_r. reflexivity.
  - rewrite (loop_app_resume _ _ _ _ E). cbv zeta. cbn [final].
    destruct (loop_data_invariants a more (final (loop a pre st))) as (H & _).
    exact H.
Qed.

(** ** The number of attempts *)

Lemma loop_attempts_bound a replies :
  forall st,
    0 <= retry_count st < max_retries ->
    query_count st < Z.max 1 (max_queries a) ->
    Z.of_nat (List.length (journal (loop a replies st)))
    <= 10 * (Z.max 1 (max_queries a) - query_count st) - retry_count st.
Proof.
  unfold max_retries.
  induction replies as [ | reply replies IH]; intros st Hr Hq.
  - rewrite loop_nil; cbn [journal List.length]. lia.
  - rewrite loop_cons. destruct (loop_test st); [ | cbn [journal List.length]; lia].
    destruct (iteration a reply st) as [st' | st' | e st'] eqn:Hi;
      unfold log; cbn [journal List.length]; try lia.
    assert (Ha : after (iteration a reply st) = Some st') by (rewrite Hi; reflexivity).
    pose proof (iteration_retry_count _ _ _ _ Ha) as Hc.
    pose proof (iteration_query_count _ _ _ _ Ha) as Hn.
    rewrite Nat2Z.inj_succ.
    destruct (failed_or_empty (attempt_of a reply st)) eqn:E.
    + destruct (iteration_failed_break _ _ _ E) as [Hb _].
      assert (retry_count st + 1 < 10).
      { destruct (Z_le_gt_dec max_retries (retry_count st + 1)) as [Hle | Hgt];
          [ | unfold max_retries in Hgt; lia].
        destruct (Hb Hle) as [s Hs]. congruence. }
      specialize (IH st'). lia.
    + pose proof (iteration_page_next _ _ _ _ E Hi).
      specialize (IH st'). lia.
Qed.

(** X1.  [download_posts] always comes to an end: it makes at most
    [10 * max(1, max_queries)] attempts, so that on that many replies it
    returns or raises without asking for more. *)
Theorem download_posts_attempt_budget a replies :
  10 * Z.max 1 (max_queries a) <= Z.of_nat (List.length replies) ->
  download_posts a replies <> None /\
  Z.of_nat (List.length (journal (loop a replies initial_state)))
  <= 10 * Z.max 1 (max_queries a).
Proof.
  intros H. split.
  - unfold download_posts.
    pose proof (loop_terminates a replies initial_state) as T.
    destruct (ending (loop a replies initial_state)); try discriminate.
    exfalso. apply T; cbn [retry_count query_count initial_state];
      unfold max_retries; try lia.
    reflexivity.
  - pose proof (loop_attempts_bound a replies initial_state) as B.
    cbn [retry_count query_count initial_state] in B.
    unfold max_retries in B. lia.
Qed.

Lemma download_posts_attempt_budget_witness :
  download_posts (args 1) (repeat (ok (bare_page [])) 10) <> None /\
  Z.of_nat (List.length
              (journal (loop (args 1) (repeat (ok (bare_page [])) 10) initial_state)))
  <= 10 * Z.max 1 (max_queries (args 1)).
Proof.
  apply (download_posts_attempt_budget (args 1) (repeat (ok (bare_page [])) 10)).
  vm_compute. discriminate.
Defined.

(** ** Waiting *)

Lemma process_page_keeps_slept results : keeps slept (process_page results).
Proof. unfold process_page, note_first_call, grab_next_page. keeps_all. Qed.

Lemma accept_page_keeps_slept posts n : keeps slept (accept_page posts n).
Proof. unfold accept_page. keeps_all. Qed.

Lemma fetch_sleeps a reply st :
  slept (snd (fetch a reply st)) = (slept st ++ [1 # 2])%list.
Proof.
  unfold fetch, bind, read, assign, lift, read_bound.
  destruct (first_call st); cbn [snd].
  - reflexivity.
  - cbn [next_page_url time_sleep].
    destruct (next_page_url st); reflexivity.
Qed.

Lemma try_block_sleeps a reply st :
  slept (snd (try_block a reply st)) = (slept st ++ [1 # 2])%list.
Proof.
  unfold try_block, bind.
  pose proof (fetch_sleeps a reply st) as F.
  destruct (fetch a reply st) as [[results | e] st0]; cbn [snd] in *.
  - rewrite process_page_keeps_slept. exact F.
  - exact F.
Qed.

(** The waits of one iteration, in terms of the retry counter it starts
    with. *)
Lemma sleeps_of_an_iteration a reply st :
  match iteration a reply st with
  | Next st' =>
      slept st' =
      (slept st ++ [1 # 2]
       ++ (if failed_or_empty (attempt_of a reply st)
           then [inject_Z (5 * (retry_count st + 1))] else []))%list
  | Break st' | Propagate _ st' => slept st' = (slept st ++ [1 # 2])%list
  end.
Proof.
  pose proof (try_block_sleeps a reply st) as S.
  destruct (failed_or_empty (attempt_of a reply st)) eqn:E.
  - rewrite (iteration_failed_or_empty _ _ _ E), retry_cases. cbv zeta.
    rewrite (try_block_keeps_retry_count a reply st).
    destruct (max_retries <=? _); cbn [slept time_sleep set_retry_count].
    + exact S.
    + rewrite S, <- app_assoc. reflexivity.
  - destruct (iteration_page _ _ _ E) as (posts & n & st1 & Ht & Hn & _ & Hi).
    rewrite Hi. rewrite Ht in S; cbn [snd] in S.
    pose proof (accept_page_keeps_slept posts n st1) as K.
    destruct (accept_page posts n st1) as [[u | e] st2]; cbn [snd] in K.
    + unfold count_query. destruct (_ >=? _); cbn [slept set_query_count];
        rewrite K, S, ?app_nil_r; reflexivity.
    + rewrite K, S. reflexivity.
Qed.

Lemma loop_sleeps a replies :
  forall st,
    slept (final (loop a replies st))
    = (slept st ++ waits (retry_count st) (journal (loop a replies st)))%list.
Proof.
  induction replies as [ | reply replies IH]; intros st.
  - rewrite loop_nil; cbn [final journal waits]. rewrite app_nil_r. reflexivity.
  - rewrite loop_cons.
    destruct (loop_test st);
      [ | cbn [final journal waits]; rewrite app_nil_r; reflexivity].
    pose proof (sleeps_of_an_iteration a reply st) as S.
    destruct (iteration a reply st) as [st' | st' | e st'] eqn:Hi;
      unfold log; cbn [final journal waits].
    + assert (Ha : after (iteration a reply st) = Some st')
        by (rewrite Hi; reflexivity).
      pose proof (iteration_retry_count _ _ _ _ Ha) as Hc.
      rewrite IH, S, Hc.
      destruct (failed_or_empty (attempt_of a reply st)) eqn:E.
      * destruct (iteration_failed_break _ _ _ E) as [Hb _].
        destruct (Z.ltb_spec (retry_count st + 1) max_retries) as [Hlt | Hge].
        -- cbn [app]. rewrite <- !app_assoc. reflexivity.
        -- destruct (Hb Hge) as [s' Hs]. congruence.
      * cbn [app]. rewrite <- !app_assoc. reflexivity.
    + rewrite S.
      destruct (failed_or_empty (attempt_of a reply st)) eqn:E.
      * destruct (iteration_failed_break _ _ _ E) as [_ Hn].
        destruct (Z.ltb_spec (retry_count st + 1) max_retries) as [Hlt | Hge].
        -- destruct (Hn Hlt) as [s' Hs]. congruence.
        -- reflexivity.
      * reflexivity.
    + rewrite S. apply iteration_propagate in Hi as [E _]. rewrite E.
      reflexivity.
Qed.

(** X7.  The time [download_posts] spends waiting is read off the journal
    of its attempts: half a second before every attempt, whatever the state
    of the retries, and [5 * n] seconds after the [n]-th attempt of a run of
    consecutive failed or empty attempts, except after the attempt that
    gives up; an accepted page starts the count afresh, and nothing else
    makes the loop wait. *)
Theorem sleeps_follow_the_journal a replies :
  slept (final (loop a replies initial_state))
  = waits 0 (journal (loop a replies initial_state)).
Proof. rewrite loop_sleeps. reflexivity. Qed.

(** ** The first call *)

Section Preserves.
Context (P : state -> Prop).

Lemma preserves_ret {A : Type} (a : A) : preserves P (ret a).
Proof. intros st H; exact H. Qed.

Lemma preserves_lift {A : Type} (r : res A) : preserves P (lift r).
Proof. intros st H; exact H. Qed.

Lemma preserves_read {A : Type} (g : state -> A) : preserves P (read g).
Proof. intros st H; exact H. Qed.

Lemma preserves_read_bound (g : state -> option pyval) :
  preserves P (read_bound g).
Proof. intros st H; unfold read_bound; destruct (g st); exact H. Qed.

Lemma preserves_assign (u : state -> state) :
  (forall st, P st -> P (u st)) -> preserves P (assign u).
Proof. intros H st; apply H. Qed.

Lemma preserves_bind {A C : Type} (m : M A) (k : A -> M C) :
  preserves P m -> (forall a, preserves P (k a)) -> preserves P (bind m k).
Proof.
  intros Hm Hk st H. unfold bind. specialize (Hm st H).
  destruct (m st) as [[a | e] st']; cbn [snd] in *.
  - apply Hk; exact Hm.
  - exact Hm.
Qed.

Lemma preserves_when (c : bool) (m : M unit) :
  preserves P m -> preserves P (when c m).
Proof. intros H; destruct c; [exact H | apply preserves_ret]. Qed.
End Preserves.

Ltac preserves_step :=
  first
    [ apply preserves_ret | apply preserves_lift | apply preserves_read
    | apply preserves_read_bound
    | apply preserves_assign; intros ? ?; cbn; assumption
    | apply preserves_when
    | apply preserves_bind; [ | intros ]
    | match goal with
      | |- preserves _ (if ?b then _ else _) => destruct b
      end ].

Lemma try_block_stays_follow_up a reply :
  preserves (fun st => first_call st = false) (try_block a reply).
Proof.
  unfold try_block, fetch, process_page, note_first_call, grab_next_page.
  repeat preserves_step.
  apply preserves_assign; intros; reflexivity.
Qed.

Lemma accept_page_keeps_first_call posts n : keeps first_call (accept_page posts n).
Proof. unfold accept_page. keeps_all. Qed.

Lemma iteration_first_call a reply st st' :
  after (iteration a reply st) = Some st' ->
  exists st0, first_call st' = first_call st0 /\
              (st0 = snd (try_block a reply st)).
Proof.
  intros H. exists (snd (try_block a reply st)). split; [ | reflexivity].
  destruct (failed_or_empty (attempt_of a reply st)) eqn:E.
  - rewrite (iteration_failed_or_empty _ _ _ E), retry_cases in H. cbv zeta in H.
    destruct (max_retries <=? _); simpl in H; inversion H; subst; reflexivity.
  - destruct (iteration_page _ _ _ E) as (posts & n & st1 & Ht & Hn & _ & Hi).
    rewrite Hi in H. rewrite Ht. cbn [snd].
    pose proof (accept_page_keeps_first_call posts n st1) as K.
    destruct (accept_page posts n st1) as [[u | e] st2]; cbn [snd] in K;
      simpl in H; try discriminate.
    unfold count_query in H.
    destruct (_ >=? _); inversion H; subst; cbn; exact K.
Qed.

(** X9.  [first_call] is never set again once it has been cleared: from a
    state in which it is false, every later attempt is a follow-up GET and
    the flag is still false when the loop is over. *)
Theorem first_call_is_cleared_for_good a replies :
  forall st,
    first_call st = false ->
    first_call (final (loop a replies st)) = false.
Proof.
  induction replies as [ | reply replies IH]; intros st H.
  - rewrite loop_nil. exact H.
  - rewrite loop_cons. destruct (loop_test st); [ | exact H].
    pose proof (try_block_stays_follow_up a reply st H) as T.
    destruct (iteration a reply st) as [st' | st' | e st'] eqn:Hi.
    + unfold log; cbn [final]. apply IH.
      destruct (iteration_first_call a reply st st') as (st0 & H1 & ->);
        [rewrite Hi; reflexivity | congruence].
    + cbn [final].
      destruct (iteration_first_call a reply st st') as (st0 & H1 & ->);
        [rewrite Hi; reflexivity | congruence].
    + cbn [final].
      unfold iteration in Hi.
      destruct (try_block a reply st) as [[[posts n] | e0] st1]; cbn [snd] in T.
      * destruct (n =? 0).
        -- rewrite retry_cases in Hi. cbv zeta in Hi.
           destruct (max_retries <=? _); discriminate.
        -- pose proof (accept_page_keeps_first_call posts n st1) as K.
           destruct (accept_page posts n st1) as [[u | e1] st2]; cbn [snd] in K.
           ++ unfold count_query in Hi. destruct (_ >=? _); discriminate.
           ++ inversion Hi; subst. congruence.
      * rewrite retry_cases in Hi. cbv zeta in Hi.
        destruct (max_retries <=? _); discriminate.
Qed.

Lemma first_call_is_cleared_for_good_witness :
  first_call
    (final (loop (args 5)
              [Reply 500 None; ok (page (posts_from 3 2) None)]
              (final (loop (args 5) [ok (page (posts_from 0 3) (Some next_url))]
                        initial_state))))
  = false.
Proof.
  apply first_call_is_cleared_for_good. reflexivity.
Defined.

(** ** What the [try] block can raise *)

Lemma ct_get_posts_raises a reply e :
  ct_get_posts a reply = Raise e -> In e caught_kinds.
Proof.
  unfold ct_get_posts. rewrite requests_get_posts.
  unfold raise_for_status, Response_json, res_bind.
  destruct reply as [ | s b]; cbn [status_code json_body].
  - intros H; inversion H; subst; cbn; auto.
  - destruct (negb (s =? 200)).
    + destruct ((400 <=? s) && (s <? 600)).
      * intros H; inversion H; subst; cbn; auto.
      * destruct b; intros H; inversion H; subst; cbn; auto 10.
    + destruct b; intros H; inversion H; subst; cbn; auto 10.
Qed.

Lemma get_next_page_raises v reply e :
  get_next_page v reply = Raise e -> In e caught_kinds.
Proof.
  unfold get_next_page, requests_get, Response_json, res_bind; cbn [url].
  destruct v; try (intros H; inversion H; subst; cbn; auto; fail).
  destruct (http_url s); [ | intros H; inversion H; subst; cbn; auto].
  destruct reply as [ | st b]; cbn [json_body].
  - intros H; inversion H; subst; cbn; auto.
  - destruct b; intros H; inversion H; subst; cbn; auto 10.
Qed.

Lemma fetch_raises a reply st e :
  url_bound st ->
  fst (fetch a reply st) = Raise e -> In e caught_kinds.
Proof.
  intros Hb. unfold fetch, bind, read, assign, lift, read_bound.
  destruct (first_call st) eqn:Hf; cbn [fst].
  - apply ct_get_posts_raises.
  - cbn [next_page_url time_sleep].
    destruct Hb as [Hb | Hb]; [congruence | ].
    destruct (next_page_url st) as [v | ]; [ | congruence].
    cbn [fst]. apply get_next_page_raises.
Qed.

Lemma fetch_keeps_next_page_url a reply : keeps next_page_url (fetch a reply).
Proof. unfold fetch. keeps_all. Qed.

Lemma bind_raise {A B : Type} (m : M A) (k : A -> M B) st e st' :
  bind m k st = (Raise e, st') ->
  m st = (Raise e, st') \/
  exists a st1, m st = (Ok a, st1) /\ k a st1 = (Raise e, st').
Proof.
  unfold bind. destruct (m st) as [[a | e0] st1]; intros H.
  - right. eauto.
  - left. inversion H; subst. reflexivity.
Qed.

Lemma lift_raise {A : Type} (r : res A) st e st' :
  lift r st = (Raise e, st') -> r = Raise e /\ st' = st.
Proof. unfold lift. intros H; inversion H; auto. Qed.

Lemma note_first_call_raise results n st e st' :
  note_first_call results n st = (Raise e, st') ->
  st' = st /\ (e = KeyError \/ e = TypeError).
Proof.
  unfold note_first_call. intros H. run_M H.
  destruct (first_call st); [ | discriminate H].
  destruct (getitem results "status") as [status | e0] eqn:Hs.
  - destruct (eq_int status 200 && negb (n =? 0)); discriminate H.
  - inversion H; subst. split; [reflexivity | ].
    eapply getitem_raises; eassumption.
Qed.

Lemma grab_next_page_any results st :
  next_page_url (snd (grab_next_page results st)) <> None /\
  (forall e, fst (grab_next_page results st) = Raise e ->
             e = KeyError \/ e = TypeError).
Proof.
  unfold grab_next_page.
  cbv beta iota zeta delta
    [bind lift read assign when ret read_bound result_item res_bind].
  destruct (getitem results "result") as [result | e0] eqn:Hres.
  2:{ cbn. split; [discriminate | ].
      intros e H; inversion H; subst. eapply getitem_raises; eassumption. }
  destruct (contains "pagination" result) as [[ | ] | e1] eqn:Hp.
  3:{ cbn. split; [discriminate | ].
      intros e H; inversion H; subst. right.
      eapply contains_raises; eassumption. }
  2:{ cbn. split; discriminate. }
  destruct (getitem result "pagination") as [pagination | e2] eqn:Hg.
  2:{ cbn. split; [discriminate | ].
      intros e H; inversion H; subst. eapply getitem_raises; eassumption. }
  destruct (contains "nextPage" pagination) as [[ | ] | e3] eqn:Hn.
  3:{ cbn. split; [discriminate | ].
      intros e H; inversion H; subst. right.
      eapply contains_raises; eassumption. }
  2:{ cbn. split; discriminate. }
  destruct (getitem pagination "nextPage") as [next | e4] eqn:Hx.
  2:{ cbn. split; [discriminate | ].
      intros e H; inversion H; subst. eapply getitem_raises; eassumption. }
  cbn [next_page_url set_more_data set_next_page_url].
  destruct (is_None next); cbn; split; discriminate.
Qed.

Lemma bind_lift_ok {A B : Type} (a : A) (k : A -> M B) st :
  bind (lift (Ok a)) k st = k a st.
Proof. reflexivity. Qed.

Lemma bind_lift_raise {A B : Type} (e : exn) (k : A -> M B) st :
  bind (lift (Raise e)) k st = (Raise e, st).
Proof. reflexivity. Qed.

Lemma bind_eq {A B : Type} (m : M A) (k : A -> M B) st :
  bind m k st =
  match m st with
  | (Ok a, st') => k a st'
  | (Raise e, st') => (Raise e, st')
  end.
Proof. reflexivity. Qed.

Lemma process_page_any results st :
  (url_bound st -> url_bound (snd (process_page results st))) /\
  (forall e, fst (process_page results st) = Raise e ->
             e = KeyError \/ e = TypeError).
Proof.
  unfold process_page.
  destruct (result_item results "posts") as [posts | e0] eqn:H0.
  2:{ rewrite !bind_lift_raise. cbn [fst snd]. split; [auto | ].
      intros e H; inversion H; subst. eapply result_item_raises; eassumption. }
  rewrite !bind_lift_ok.
  destruct (len posts) as [n | e1] eqn:H1.
  2:{ rewrite !bind_lift_raise. cbn [fst snd]. split; [auto | ].
      intros e H; inversion H; subst. right. eapply len_raises; eassumption. }
  rewrite !bind_lift_ok.
  rewrite !(bind_eq (note_first_call results n)).
  destruct (note_first_call results n st) as [[u | e2] st1] eqn:H2.
  2:{ cbn [fst snd]. apply note_first_call_raise in H2 as [-> He].
      split; [auto | ]. intros e H; inversion H; subst. exact He. }
  rewrite !(bind_eq (grab_next_page results)).
  pose proof (grab_next_page_any results st1) as [Hb He].
  destruct (grab_next_page results st1) as [[u' | e3] st2]; cbn [fst snd] in *.
  - unfold ret. cbn [fst snd]. split; [intros _; right; exact Hb | discriminate].
  - split; [intros _; right; exact Hb | ].
    intros e H; inversion H; subst. apply He. reflexivity.
Qed.

Lemma try_block_any a reply st :
  url_bound st ->
  url_bound (snd (try_block a reply st)) /\ caught (attempt_of a reply st).
Proof.
  intros Hb. unfold attempt_of, try_block, bind.
  pose proof (fetch_raises a reply st) as Fr.
  pose proof (fetch_keeps_first_call a reply st) as Kf.
  pose proof (fetch_keeps_next_page_url a reply st) as Kn.
  destruct (fetch a reply st) as [[results | e] st0]; cbn [fst snd] in *.
  - assert (Hb0 : url_bound st0).
    { unfold url_bound in *. rewrite Kf, Kn. exact Hb. }
    destruct (process_page_any results st0) as [Hp He].
    split; [apply Hp; exact Hb0 | ].
    destruct (process_page results st0) as [[[posts n] | e] st1]; cbn [fst] in *.
    + unfold classify. destruct (n =? 0); exact I.
    + cbn. destruct (He e eq_refl) as [-> | ->]; auto 10.
  - split.
    + unfold url_bound in *. rewrite Kf, Kn. exact Hb.
    + cbn. apply Fr; auto.
Qed.

Lemma accept_page_keeps_next_page_url posts n :
  keeps next_page_url (accept_page posts n).
Proof. unfold accept_page. keeps_all. Qed.

Lemma iteration_url_bound a reply st st' :
  url_bound st ->
  iteration a reply st = Next st' ->
  url_bound st'.
Proof.
  intros Hb Hi.
  destruct (try_block_any a reply st Hb) as [Hb1 _].
  unfold iteration in Hi.
  destruct (try_block a reply st) as [[[posts n] | e0] st1]; cbn [snd] in Hb1.
  - destruct (n =? 0).
    + rewrite retry_cases in Hi. cbv zeta in Hi.
      destruct (max_retries <=? _); inversion Hi; subst. exact Hb1.
    + pose proof (accept_page_keeps_first_call posts n st1) as K1.
      pose proof (accept_page_keeps_next_page_url posts n st1) as K2.
      destruct (accept_page posts n st1) as [[u | e1] st2]; cbn [snd] in *;
        try discriminate.
      unfold count_query in Hi. destruct (_ >=? _); inversion Hi; subst.
      unfold url_bound in *. cbn. rewrite K1, K2. exact Hb1.
  - rewrite retry_cases in Hi. cbv zeta in Hi.
    destruct (max_retries <=? _); inversion Hi; subst. exact Hb1.
Qed.

Lemma loop_caught a replies :
  forall st, url_bound st -> Forall caught (journal (loop a replies st)).
Proof.
  induction replies as [ | reply replies IH]; intros st Hb.
  - rewrite loop_nil. constructor.
  - rewrite loop_cons. destruct (loop_test st); [ | constructor].
    destruct (try_block_any a reply st Hb) as [_ Hc].
    destruct (iteration a reply st) as [st' | st' | e st'] eqn:Hi;
      unfold log; cbn [journal]; constructor; auto.
    apply IH. eapply iteration_url_bound; eassumption.
Qed.

Lemma iteration_url_bound_any a reply st :
  url_bound st ->
  match iteration a reply st with
  | Next st' | Break st' | Propagate _ st' => url_bound st'
  end.
Proof.
  intros Hb.
  destruct (try_block_any a reply st Hb) as [Hb1 _].
  unfold iteration.
  destruct (try_block a reply st) as [[[posts n] | e0] st1]; cbn [snd] in Hb1.
  - destruct (n =? 0).
    + rewrite retry_cases. cbv zeta. destruct (max_retries <=? _); exact Hb1.
    + pose proof (accept_page_keeps_first_call posts n st1) as K1.
      pose proof (accept_page_keeps_next_page_url posts n st1) as K2.
      destruct (accept_page posts n st1) as [[u | e1] st2]; cbn [snd] in *.
      * unfold count_query. destruct (_ >=? _);
          unfold url_bound in *; cbn; rewrite K1, K2; exact Hb1.
      * unfold url_bound in *. rewrite K1, K2. exact Hb1.
  - rewrite retry_cases. cbv zeta. destruct (max_retries <=? _); exact Hb1.
Qed.

Lemma loop_url_bound a replies :
  forall st, url_bound st -> url_bound (final (loop a replies st)).
Proof.
  induction replies as [ | reply replies IH]; intros st Hb.
  - rewrite loop_nil. exact Hb.
  - rewrite loop_cons. destruct (loop_test st); [ | exact Hb].
    pose proof (iteration_url_bound_any a reply st Hb) as H.
    destruct (iteration a reply st) as [st' | st' | e st'];
      unfold log; cbn [final]; auto.
Qed.

(** X8.  Whatever the replies, [next_page_url] has been assigned whenever
    [first_call] is false, because [first_call] is cleared only in a [try]
    block that goes on to assign it: the follow-up GET never reads the
    variable unbound, and no attempt fails with [UnboundLocalError]. *)
Theorem next_page_url_is_bound_when_read a replies :
  (first_call (final (loop a replies initial_state)) = false ->
   next_page_url (final (loop a replies initial_state)) <> None) /\
  ~ In (Failed UnboundLocalError) (journal (loop a replies initial_state)).
Proof.
  split.
  - intros Hf.
    destruct (loop_url_bound a replies initial_state) as [H | H];
      [left; reflexivity | congruence | exact H].
  - assert (H : Forall caught (journal (loop a replies initial_state))).
    { apply loop_caught. left. reflexivity. }
    intros Hin. rewrite Forall_forall in H. specialize (H _ Hin).
    cbn in H. repeat (destruct H as [H | H]; [discriminate H | ]). exact H.
Qed.

(** * Further properties of the two endpoint functions *)

(** X10.  [ct_get_posts] returns the parsed body exactly when an answer
    arrives whose status is outside 400-599 and whose body is JSON, and it
    raises [HTTPError] exactly on a status within 400-599, whether or not
    the body of that answer is JSON. *)
Theorem ct_get_posts_returns_iff a reply v :
  (ct_get_posts a reply = Ok v <->
   exists s, reply = Reply s (Some v) /\ (s < 400 \/ 600 <= s)) /\
  (ct_get_posts a reply = Raise HTTPError <->
   exists s b, reply = Reply s b /\ 400 <= s < 600).
Proof.
  unfold ct_get_posts. rewrite requests_get_posts.
  unfold raise_for_status, Response_json, res_bind.
  destruct reply as [ | s b]; cbn [status_code json_body].
  - split; split; try discriminate.
    + intros (s & H & _); discriminate.
    + intros (s & b & H & _); discriminate.
  - destruct (Z.eqb_spec s 200) as [-> | Hs]; cbn [negb].
    + split; split.
      * destruct b; intros H; inversion H; subst. exists 200. split; [auto | lia].
      * intros (s & H & _); inversion H; subst. reflexivity.
      * destruct b; discriminate.
      * intros (s & b' & H & Hr); inversion H; subst. lia.
    + destruct (Z.leb_spec 400 s); destruct (Z.ltb_spec s 600); cbn [andb];
        split; split;
        try (intros (s' & H' & Hr); inversion H'; subst; try lia; reflexivity);
        try (intros (s' & b' & H' & Hr); inversion H'; subst; try lia; reflexivity);
        try discriminate;
        try (destruct b; intros H'; inversion H'; subst; exists s; split; [auto | lia]);
        try (intros _; exists s, b; split; [auto | lia]);
        try (destruct b; discriminate).
Qed.

(** X11.  [ct_get_lists] refuses a missing token with [ValueError] before
    any request is made.  With a token it never raises [HTTPError]: an
    answer with a JSON body is returned as it is when the status is 200 or
    when the body is an object with [status], [code] and [message], which
    are reported; an error body without one of the three makes the report
    itself raise. *)
Theorem ct_get_lists_returns_error_bodies api_token reply :
  (is_None api_token = true -> ct_get_lists api_token reply = Raise ValueError) /\
  (is_None api_token = false ->
     ct_get_lists api_token reply <> Raise HTTPError /\
     forall s out,
       reply = Reply s (Some out) ->
       (ct_get_lists api_token reply = Ok out <->
        s = 200 \/
        has_field "status" out && has_field "code" out && has_field "message" out
        = true) /\
       (ct_get_lists api_token reply <> Ok out ->
        ct_get_lists api_token reply = Raise KeyError \/
        ct_get_lists api_token reply = Raise TypeError)).
Proof.
  unfold ct_get_lists. split; intros Ht; rewrite Ht; [reflexivity | ].
  rewrite requests_get_lists. unfold Response_json, res_bind.
  split.
  - destruct reply as [ | s b]; cbn [status_code json_body]; [discriminate | ].
    destruct (negb (s =? 200)); destruct b as [out | ]; try discriminate.
    pose proof (getitem_has_field out "status") as H1.
    pose proof (getitem_has_field out "code") as H2.
    pose proof (getitem_has_field out "message") as H3.
    destruct (getitem out "status"); [ | destruct H1 as [_ [-> | ->]]; discriminate].
    destruct (getitem out "code"); [ | destruct H2 as [_ [-> | ->]]; discriminate].
    destruct (getitem out "message"); [ | destruct H3 as [_ [-> | ->]]; discriminate].
    discriminate.
  - intros s out ->. cbn [status_code json_body].
    destruct (Z.eqb_spec s 200) as [-> | Hs]; cbn [negb].
    + split; [split; auto | intros H; congruence].
    + pose proof (getitem_has_field out "status") as H1.
      pose proof (getitem_has_field out "code") as H2.
      pose proof (getitem_has_field out "message") as H3.
      destruct (getitem out "status").
      2:{ destruct H1 as [-> He]. cbn [andb].
          split; [split; [discriminate | intros [H | H]; [lia | discriminate]] | ].
          intros _. destruct He as [-> | ->]; auto. }
      destruct (getitem out "code").
      2:{ destruct H2 as [-> He]. rewrite H1. cbn [andb].
          split; [split; [discriminate | intros [H | H]; [lia | discriminate]] | ].
          intros _. destruct He as [-> | ->]; auto. }
      destruct (getitem out "message").
      2:{ destruct H3 as [-> He]. rewrite H1, H2. cbn [andb].
          split; [split; [discriminate | intros [H | H]; [lia | discriminate]] | ].
          intros _. destruct He as [-> | ->]; auto. }
      rewrite H1, H2, H3. cbn [andb].
      split; [split; auto | intros H; congruence].
Qed.

(** * Further properties of the post model *)

Lemma get_dict_val_loop_none keys :
  get_dict_val_loop PyNone keys = Ok PyNone.
Proof. destruct keys; reflexivity. Qed.

Lemma get_dict_val_loop_non_dict v keys :
  isinstance_dict v = false -> keys <> [] ->
  get_dict_val_loop v keys = Ok PyNone.
Proof.
  intros Hv Hk. destruct keys as [ | k keys]; [congruence | ].
  destruct v; try reflexivity. discriminate Hv.
Qed.

(** The traversal of a path is the traversal of its first part followed by
    the traversal of the rest. *)
Lemma get_dict_val_loop_app keys1 keys2 :
  forall retval,
    get_dict_val_loop retval (keys1 ++ keys2) =
    (v <- get_dict_val_loop retval keys1 ;; get_dict_val_loop v keys2)%res.
Proof.
  induction keys1 as [ | k keys1 IH]; intros retval.
  - reflexivity.
  - cbn [app get_dict_val_loop].
    destruct retval as [ | b | z | s | l | d];
      try (cbn [res_bind]; rewrite get_dict_val_loop_none; reflexivity).
    unfold res_bind at 1 3.
    destruct (dict_contains k d) as [[ | ] | e]; try reflexivity.
    + unfold res_bind at 1 3.
      destruct (dict_getitem k d) as [v | e]; [apply IH | reflexivity].
    + cbn [res_bind]. rewrite get_dict_val_loop_none. reflexivity.
Qed.

(** X12.  Looking a path up with [get_dict_val] is looking its first part
    up and then the rest from the value found there: the second step is
    another [get_dict_val] when that value is a dictionary; when it is not,
    the result is [None], or the value itself if nothing is left of the
    path. *)
Theorem get_dict_val_composes (d : dict) (keys1 keys2 : list pyval) :
  get_dict_val (PyDict d) (PyList (keys1 ++ keys2)) =
  match get_dict_val (PyDict d) (PyList keys1) with
  | Ok (PyDict d') => get_dict_val (PyDict d') (PyList keys2)
  | Ok v => Ok (match keys2 with [] => v | _ => PyNone end)
  | Raise e => Raise e
  end.
Proof.
  unfold get_dict_val; cbn [isinstance_dict isinstance_list negb].
  rewrite get_dict_val_loop_app. unfold res_bind.
  destruct (get_dict_val_loop (PyDict d) keys1) as [v | e]; [ | reflexivity].
  destruct v; try reflexivity; destruct keys2; reflexivity.
Qed.

(** X13.  A key that is a list or a dictionary makes [get_dict_val] raise
    [TypeError] only if the traversal gets to it: after a prefix of hashable
    keys that leads to a dictionary the call raises, and after a prefix that
    is missing or leads to another kind of value it returns [None]. *)
Theorem unhashable_key_raises_when_reached
    (d : dict) (keys : list pyval) (k : pyval) (rest : list pyval) :
  forallb hashable keys = true ->
  hashable k = false ->
  get_dict_val (PyDict d) (PyList (keys ++ k :: rest)) =
  match get_dict_val (PyDict d) (PyList keys) with
  | Ok (PyDict _) => Raise TypeError
  | _ => Ok PyNone
  end.
Proof.
  intros Hk Hu.
  unfold get_dict_val; cbn [isinstance_dict isinstance_list negb].
  rewrite get_dict_val_loop_app. unfold res_bind.
  destruct (get_dict_val_loop_spec keys (PyDict d) Hk) as (v & -> & _).
  destruct v; try reflexivity.
  cbn [get_dict_val_loop]. unfold dict_contains. rewrite Hu. reflexivity.
Qed.

Lemma unhashable_key_raises_when_reached_witness :
  get_dict_val (PyDict [("a", PyDict [("b", PyInt 1)])])
    (PyList ([PyStr "a"] ++ PyList [] :: [PyStr "b"]))
  = Raise TypeError /\
  get_dict_val (PyDict [("a", PyDict [("b", PyInt 1)])])
    (PyList ([PyStr "x"] ++ PyList [] :: [PyStr "b"]))
  = Ok PyNone.
Proof.
  split.
  - exact (unhashable_key_raises_when_reached
             [("a", PyDict [("b", PyInt 1)])] [PyStr "a"] (PyList []) [PyStr "b"]
             eq_refl eq_refl).
  - exact (unhashable_key_raises_when_reached
             [("a", PyDict [("b", PyInt 1)])] [PyStr "x"] (PyList []) [PyStr "b"]
             eq_refl eq_refl).
Defined.

(** ** The accessors of [FbIgPost] on a dictionary payload *)

Lemma get_value_single (d : dict) (k : string) :
  get_value {| post_object := PyDict d |} [k] = Ok (or_None (dict_get k d)).
Proof.
  unfold get_value, get_dict_val; cbn.
  unfold dict_has. destruct (dict_get k d); reflexivity.
Qed.

(** X14.  On a payload that is a dictionary none of the scalar accessors
    raises on account of the payload: each returns [None] when its field is
    missing or null and the field (for the identifiers, its [str]) when it
    is there; [get_user_ID] also returns [None] when [account] is not a
    dictionary.  The two timestamp accessors return [None] for a missing or
    null date and otherwise whatever the conversion of the date gives, its
    exception included. *)
Theorem scalar_accessors_on_dict
    (str : pyval -> string) (strptime_utc_timestamp : pyval -> res Z) (d : dict) :
  let self := {| post_object := PyDict d |} in
  let id_of o :=
    match o with
    | Some v => if is_None v then PyNone else PyStr (str v)
    | None => PyNone
    end in
  let time_of o :=
    match o with
    | Some v => if is_None v then Ok PyNone
                else convert_to_timestamp strptime_utc_timestamp v
    | None => Ok PyNone
    end in
  get_link_to_post self = Ok (or_None (dict_get "postUrl" d)) /\
  get_platform self = Ok (or_None (dict_get "platform" d)) /\
  get_post_type self = Ok (or_None (dict_get "type" d)) /\
  get_post_ID str self = Ok (id_of (dict_get "id" d)) /\
  get_user_ID str self
  = Ok (match dict_get "account" d with
        | Some account => id_of (field "id" account)
        | None => PyNone
        end) /\
  get_timestamp strptime_utc_timestamp self = time_of (dict_get "date" d) /\
  get_update_timestamp strptime_utc_timestamp self = time_of (dict_get "updated" d).
Proof.
  cbv zeta.
  unfold get_link_to_post, get_platform, get_post_type, get_post_ID,
    get_timestamp, get_update_timestamp.
  rewrite !get_value_single.
  repeat split; try reflexivity.
  - cbn [res_bind]. destruct (dict_get "id" d) as [v | ]; [ | reflexivity].
    cbn [or_None]. destruct (is_None v); reflexivity.
  - unfold get_user_ID, get_value, get_dict_val; cbn.
    unfold dict_has.
    destruct (dict_get "account" d) as [account | ]; [ | reflexivity].
    cbn. destruct account; cbn; try reflexivity.
    unfold dict_has. destruct (dict_get "id" d0) as [v | ]; [ | reflexivity].
    cbn. destruct (is_None v); reflexivity.
  - cbn [res_bind].
    destruct (dict_get "date" d) as [v | ]; [ | reflexivity].
    cbn [or_None]. destruct (is_None v); reflexivity.
  - cbn [res_bind].
    destruct (dict_get "updated" d) as [v | ]; [ | reflexivity].
    cbn [or_None]. destruct (is_None v); reflexivity.
Qed.

Lemma get_text_loop_step clean_text (d : dict) k ks obj :
  get_text_loop clean_text {| post_object := PyDict d |} false (k :: ks) obj =
  get_text_loop clean_text {| post_object := PyDict d |} false ks
    (match dict_get k d with
     | Some v => if is_None v then obj else dict_set k v obj
     | None => obj
     end).
Proof.
  cbn [get_text_loop]. rewrite get_value_single. cbn [res_bind].
  destruct (dict_get k d) as [v | ]; cbn [or_None is_None]; [ | reflexivity].
  destruct (is_None v); reflexivity.
Qed.

Lemma get_text_loop_texts clean_text (d : dict) :
  get_text_loop clean_text {| post_object := PyDict d |} false text_fields []
  = Ok (present_texts d).
Proof.
  unfold text_fields, present_texts, text_fields.
  rewrite !get_text_loop_step. cbn [get_text_loop flat_map].
  destruct (dict_get "message" d) as [v1 | ];
    destruct (dict_get "title" d) as [v2 | ];
    destruct (dict_get "description" d) as [v3 | ];
    destruct (dict_get "imageText" d) as [v4 | ];
    try destruct (is_None v1); try destruct (is_None v2);
    try destruct (is_None v3); try destruct (is_None v4);
    reflexivity.
Qed.

(** X15.  With [struct=True] and without cleaning, [get_text] does not
    raise on a dictionary payload: it returns the text fields the payload
    has with a value other than null, always in the order message, title,
    description, imageText, whatever their order in the payload, each with
    the value of the payload. *)
Theorem get_text_struct_is_present_texts clean_text (d : dict) :
  get_text clean_text {| post_object := PyDict d |} false true
  = Ok (PyDict (present_texts d)).
Proof.
  unfold get_text. fold text_fields.
  rewrite get_text_loop_texts. reflexivity.
Qed.

Lemma join_space_concat l :
  join_space l =
  if forallb is_str l then Ok (String.concat " " (strings_of l))
  else Raise TypeError.
Proof.
  induction l as [ | v l IH]; [reflexivity | ].
  destruct v; try reflexivity.
  destruct l as [ | v' l']; [reflexivity | ].
  change (join_space (PyStr s :: v' :: l'))
    with (rest <- join_space (v' :: l') ;; Ok (s ++ " " ++ rest))%res.
  rewrite IH.
  change (forallb is_str (PyStr s :: v' :: l'))
    with (forallb is_str (v' :: l')).
  destruct (forallb is_str (v' :: l')) eqn:E; cbn [res_bind]; [ | reflexivity].
  destruct v'; try discriminate E. reflexivity.
Qed.

Lemma get_text_joins_present_texts_aux clean_text (d : dict) :
  get_text clean_text {| post_object := PyDict d |} false false =
  if forallb is_str (dict_values (present_texts d))
  then Ok (PyStr (String.concat " " (strings_of (dict_values (present_texts d)))))
  else Raise TypeError.
Proof.
  unfold get_text. fold text_fields.
  rewrite get_text_loop_texts. cbn [res_bind].
  rewrite join_space_concat.
  destruct (forallb is_str (dict_values (present_texts d))); reflexivity.
Qed.

(** X16.  In its default form [get_text] returns the present text fields,
    in the order message, title, description, imageText, joined by single
    spaces (the empty string when there is none); it raises [TypeError]
    exactly when one of them is neither a string nor null. *)
Theorem get_text_joins_present_texts clean_text (d : dict) :
  get_text clean_text {| post_object := PyDict d |} false false =
  if forallb is_str (dict_values (present_texts d))
  then Ok (PyStr (String.concat " " (strings_of (dict_values (present_texts d)))))
  else Raise TypeError.
Proof.
  unfold get_text. fold text_fields.
  rewrite get_text_loop_texts. cbn [res_bind].
  rewrite join_space_concat.
  destruct (forallb is_str (dict_values (present_texts d))); reflexivity.
Qed.

(** ** Lists inside a post *)

Lemma mapM_ok_iff {A B : Type} (f : A -> res B) (l : list A) (l' : list B) :
  mapM f l = Ok l' <-> Forall2 (fun x y => f x = Ok y) l l'.
Proof.
  revert l'. induction l as [ | x l IH]; intros l'; cbn [mapM].
  - split.
    + intros H; inversion H; constructor.
    + intros H; inversion H; reflexivity.
  - unfold res_bind. split.
    + destruct (f x) as [y | e] eqn:Hx; try discriminate.
      destruct (mapM f l) as [ys | e] eqn:Hl; try discriminate.
      intros H; inversion H; subst. constructor; [exact Hx | ].
      apply IH. reflexivity.
    + intros H; inversion H as [ | x0 y l0 ys Hx Hl]; subst.
      rewrite Hx. apply IH in Hl. rewrite Hl. reflexivity.
Qed.

Lemma getitem_field v k x : getitem v k = Ok x <-> field k v = Some x.
Proof.
  destruct v; cbn; try (split; discriminate).
  destruct (dict_get k d); split; intros H; inversion H; reflexivity.
Qed.

Lemma Forall2_equiv {A B : Type} (P Q : A -> B -> Prop) l l' :
  (forall x y, P x y <-> Q x y) -> Forall2 P l l' <-> Forall2 Q l l'.
Proof.
  intros H. split; intros F; induction F; constructor; auto; apply H; auto.
Qed.

(** X17.  On a post whose [expandedLinks] is a list, [get_URLs] returns
    one URL per link, in the order of the links, each the [expanded] entry
    of its link; it returns such a list exactly when every link is a
    dictionary with an [expanded] entry. *)
Theorem get_URLs_follows_the_links (d : dict) (items urls : list pyval) :
  dict_get "expandedLinks" d = Some (PyList items) ->
  (get_URLs {| post_object := PyDict d |} = Ok (PyList urls) <->
   Forall2 (fun item u => field "expanded" item = Some u) items urls).
Proof.
  intros H. unfold get_URLs. rewrite get_value_single, H.
  cbn [or_None res_bind is_None negb iter].
  rewrite <- (Forall2_equiv _ _ items urls
                (fun item u => getitem_field item "expanded" u)).
  rewrite <- mapM_ok_iff. unfold res_bind.
  destruct (mapM (fun item => getitem item "expanded") items) as [us | e].
  - split; intros E; inversion E; reflexivity.
  - split; discriminate.
Qed.

Lemma get_URLs_follows_the_links_witness :
  get_URLs
    {| post_object :=
         PyDict [("id", PyInt 7);
                 ("expandedLinks",
                   PyList [PyDict [("original", PyStr "https://t.co/a");
                                   ("expanded", PyStr "https://x.test/a")];
                           PyDict [("expanded", PyStr "https://x.test/b")]])] |}
  = Ok (PyList [PyStr "https://x.test/a"; PyStr "https://x.test/b"]).
Proof.
  apply (get_URLs_follows_the_links
           [("id", PyInt 7);
            ("expandedLinks",
              PyList [PyDict [("original", PyStr "https://t.co/a");
                              ("expanded", PyStr "https://x.test/a")];
                      PyDict [("expanded", PyStr "https://x.test/b")]])]
           _ _ eq_refl).
  repeat constructor.
Defined.

Lemma media_obj_of_cases item :
  match media_obj_of item with
  | Ok m =>
      has_field "url" item && has_field "type" item = true /\
      exists md, m = PyDict md /\
        dict_keys md = (["media_url"; "media_type"]
                        ++ if has_field "full" item then ["media_full_url"] else [])%list /\
        dict_get "media_url" md = field "url" item /\
        dict_get "media_type" md = field "type" item /\
        dict_get "media_full_url" md = field "full" item
  | Raise e =>
      has_field "url" item && has_field "type" item = false /\
      (e = KeyError \/ e = TypeError)
  end.
Proof.
  unfold media_obj_of, res_bind.
  destruct item as [ | b | z | s | l | d]; cbn; auto.
  unfold dict_has.
  destruct (dict_get "url" d) as [u | ]; cbn; auto.
  destruct (dict_get "type" d) as [t | ]; cbn; auto.
  destruct (dict_get "full" d) as [f | ]; cbn;
    (split; [reflexivity | eexists; repeat split; reflexivity]).
Qed.

(** X18.  On a post whose [media] is a list, [get_media] succeeds exactly
    when every item is a dictionary with [url] and [type] (otherwise it
    raises [KeyError] or [TypeError]); it then returns one object per item,
    in order, with [media_url] and [media_type] taken from the item and with
    [media_full_url] present exactly when the item has [full]. *)
Theorem get_media_follows_the_items (d : dict) (items : list pyval) :
  dict_get "media" d = Some (PyList items) ->
  match get_media {| post_object := PyDict d |} with
  | Ok media =>
      forallb (fun item => has_field "url" item && has_field "type" item) items
      = true /\
      exists ms,
        media = PyList ms /\
        Forall2 (fun item m =>
                   field "media_url" m = field "url" item /\
                   field "media_type" m = field "type" item /\
                   field "media_full_url" m = field "full" item)
                items ms
  | Raise e =>
      forallb (fun item => has_field "url" item && has_field "type" item) items
      = false /\
      (e = KeyError \/ e = TypeError)
  end.
Proof.
  intros H. unfold get_media. rewrite get_value_single, H.
  cbn [or_None res_bind is_None negb iter].
  assert (G : match mapM media_obj_of items with
              | Ok ms =>
                  forallb (fun item => has_field "url" item && has_field "type" item)
                    items = true /\
                  Forall2 (fun item m =>
                             field "media_url" m = field "url" item /\
                             field "media_type" m = field "type" item /\
                             field "media_full_url" m = field "full" item)
                          items ms
              | Raise e =>
                  forallb (fun item => has_field "url" item && has_field "type" item)
                    items = false /\
                  (e = KeyError \/ e = TypeError)
              end).
  { clear H. induction items as [ | item items IH]; cbn [mapM forallb].
    - split; [reflexivity | constructor].
    - unfold res_bind.
      pose proof (media_obj_of_cases item) as Hc.
      destruct (media_obj_of item) as [m | e].
      + destruct Hc as (Hf & md & -> & _ & H1 & H2 & H3). rewrite Hf.
        cbn [andb].
        destruct (mapM media_obj_of items) as [ms | e].
        * destruct IH as [Hall HF]. split; [exact Hall | ].
          constructor; [cbn [field]; auto | exact HF].
        * exact IH.
      + destruct Hc as [Hf He]. rewrite Hf. cbn [andb]. auto. }
  unfold res_bind.
  destruct (mapM media_obj_of items) as [ms | e].
  - destruct G as [Hall HF]. split; [exact Hall | eauto].
  - exact G.
Qed.

Lemma get_media_follows_the_items_witness :
  match
    get_media
      {| post_object :=
           PyDict [("media",
                     PyList [PyDict [("type", PyStr "photo");
                                     ("url", PyStr "https://x.test/1.jpg");
                                     ("full", PyStr "https://x.test/1_full.jpg")];
                             PyDict [("type", PyStr "video");
                                     ("url", PyStr "https://x.test/2.mp4")]])] |}
  with
  | Ok media => exists ms, media = PyList ms /\ List.length ms = 2%nat
  | Raise _ => False
  end.
Proof.
  pose proof
    (get_media_follows_the_items
       [("media",
          PyList [PyDict [("type", PyStr "photo");
                          ("url", PyStr "https://x.test/1.jpg");
                          ("full", PyStr "https://x.test/1_full.jpg")];
                  PyDict [("type", PyStr "video");
                          ("url", PyStr "https://x.test/2.mp4")]])]
       _ eq_refl) as H.
  cbv beta in H.
  destruct (get_media _) as [media | e].
  - destruct H as (_ & ms & -> & HF). exists ms. split; [reflexivity | ].
    apply Forall2_length in HF. symmetry. exact HF.
  - destruct H as [H _]. discriminate H.
Defined.

(** ** Hashtags *)

Lemma string_app_assoc (a b c : string) : ((a ++ b) ++ c = a ++ (b ++ c))%string.
Proof. induction a; cbn; [reflexivity | rewrite IHa; reflexivity]. Qed.

(** A white space character ends the word being read and starts afresh. *)
Lemma split_from_space (a b : string) (c : Ascii.ascii) :
  isspace c = true ->
  forall word,
    split_from word (a ++ String c b)
    = (split_from word a ++ split_from EmptyString b)%list.
Proof.
  intros Hc. induction a as [ | x a IH]; intros word.
  - cbn [String.append split_from]. rewrite Hc. reflexivity.
  - cbn [String.append split_from].
    destruct (isspace x).
    + rewrite IH, app_assoc. reflexivity.
    + apply IH.
Qed.

Lemma hashtags_in_space (a b : string) :
  hashtags_in (a ++ " " ++ b) = (hashtags_in a ++ hashtags_in b)%list.
Proof.
  unfold hashtags_in, split.
  change (" " ++ b)%string with (String (Ascii.ascii_of_nat 32) b).
  rewrite split_from_space by reflexivity.
  rewrite filter_app, map_app. reflexivity.
Qed.

Lemma hashtags_in_concat (texts : list string) :
  hashtags_in (String.concat " " texts) = flat_map hashtags_in texts.
Proof.
  induction texts as [ | a texts IH]; [reflexivity | ].
  destruct texts as [ | b texts].
  - cbn [String.concat flat_map]. rewrite app_nil_r. reflexivity.
  - change (String.concat " " (a :: b :: texts))
      with (a ++ " " ++ String.concat " " (b :: texts))%string.
    rewrite hashtags_in_space, IH. reflexivity.
Qed.

(** X19.  The hashtags of a post are the hashtags of its text fields, taken
    field by field in the order message, title, description, imageText: a
    hashtag never runs across two fields.  [get_hashtags] raises
    [TypeError] exactly when [get_text] does, that is when a text field is
    neither a string nor null. *)
Theorem get_hashtags_field_by_field clean_text (d : dict) :
  get_hashtags clean_text {| post_object := PyDict d |} =
  if forallb is_str (dict_values (present_texts d))
  then Ok (PyList (map PyStr
                     (flat_map hashtags_in
                        (strings_of (dict_values (present_texts d))))))
  else Raise TypeError.
Proof.
  unfold get_hashtags.
  rewrite get_text_joins_present_texts_aux.
  destruct (forallb is_str (dict_values (present_texts d))); [ | reflexivity].
  cbn [res_bind]. rewrite hashtags_in_concat. reflexivity.
Qed.

Lemma all_chars_app p (a b : string) :
  all_chars p (a ++ b) = all_chars p a && all_chars p b.
Proof.
  induction a as [ | c a IH]; cbn; [reflexivity | ].
  rewrite IH, andb_assoc. reflexivity.
Qed.

Lemma split_from_tokens (s : string) :
  forall word,
    all_chars not_space word = true ->
    Forall (fun w => w <> EmptyString /\ all_chars not_space w = true)
           (split_from word s).
Proof.
  assert (F : forall word,
             all_chars not_space word = true ->
             Forall (fun w => w <> EmptyString /\ all_chars not_space w = true)
                    (flush word)).
  { intros word H. destruct word; cbn [flush]; constructor; [ | constructor].
    split; [discriminate | exact H]. }
  induction s as [ | c s IH]; intros word H; cbn [split_from].
  - apply F; exact H.
  - destruct (isspace c) eqn:Hc.
    + apply Forall_app. split; [apply F; exact H | apply IH; reflexivity].
    + apply IH. rewrite all_chars_app, H. cbn. unfold not_space. rewrite Hc.
      reflexivity.
Qed.

Lemma startswith_hash_iff (part : string) :
  startswith_hash part = true <-> part = ("#" ++ drop_first part)%string.
Proof.
  unfold startswith_hash.
  destruct part as [ | c r]; cbn [String.prefix drop_first String.append].
  - split; discriminate.
  - match goal with
    | |- context [Ascii.ascii_dec ?a c] =>
        destruct (Ascii.ascii_dec a c) as [E | Hne]
    end.
    + subst c. split; [reflexivity | ]. destruct r; reflexivity.
    + split; [discriminate | ]. intros H; inversion H; subst. congruence.
Qed.

(** X20.  The hashtags [get_hashtags] finds in a text are exactly the
    white-space separated tokens that begin with [#], with that one
    character removed: a [#] inside a token does not start a hashtag, a
    second [#] is kept, a lone [#] gives the empty hashtag.  No token, hence
    no hashtag, contains white space. *)
Theorem hashtags_are_the_hash_tokens (text : string) :
  (forall tag, In tag (hashtags_in text) <-> In ("#" ++ tag)%string (split text)) /\
  Forall (fun w => w <> EmptyString /\ all_chars not_space w = true) (split text) /\
  Forall (fun tag => all_chars not_space tag = true) (hashtags_in text).
Proof.
  assert (T : Forall (fun w => w <> EmptyString /\ all_chars not_space w = true)
                     (split text)).
  { apply split_from_tokens. reflexivity. }
  assert (I : forall tag,
             In tag (hashtags_in text) <-> In ("#" ++ tag)%string (split text)).
  { intros tag. unfold hashtags_in. rewrite in_map_iff. split.
    - intros (part & Hd & Hin). apply filter_In in Hin as [Hin Hs].
      apply startswith_hash_iff in Hs. rewrite Hd in Hs. rewrite <- Hs. exact Hin.
    - intros Hin. exists ("#" ++ tag)%string. split; [reflexivity | ].
      apply filter_In. split; [exact Hin | ].
      apply startswith_hash_iff. reflexivity. }
  split; [exact I | split; [exact T | ]].
  apply Forall_forall. intros tag Hin. apply I in Hin.
  rewrite Forall_forall in T. destruct (T _ Hin) as [_ H].
  cbn in H. apply andb_true_iff in H as [_ H]. exact H.
Qed.

(** The hashtags of the text "Check #this out #now", and of some texts with
    stray [#] characters. *)
Example hashtags_of_sample_texts :
  hashtags_in "Check #this out #now" = ["this"; "now"] /\
  hashtags_in "a#b ##c # #d" = ["#c"; ""; "d"].
Proof. split; reflexivity. Qed.

(** ** A failed request is repeated *)

Lemma fetch_state a reply st : snd (fetch a reply st) = time_sleep (1 # 2) st.
Proof.
  unfold fetch, bind, read, assign, lift, read_bound.
  destruct (first_call st); cbn [snd]; [reflexivity | ].
  cbn [next_page_url time_sleep].
  destruct (next_page_url st); reflexivity.
Qed.

(** X21.  When the request itself fails (the connection, the status check
    of the first call, or the parsing of the body), the attempt changes
    nothing but the retry counter and the time spent: [first_call],
    [more_data] and [next_page_url] are as before, so the next attempt
    repeats the same request, and no record or query is counted. *)
Theorem failed_request_is_repeated a reply st e :
  fst (fetch a reply st) = Raise e ->
  attempt_of a reply st = Failed e /\
  exists st',
    after (iteration a reply st) = Some st' /\
    first_call st' = first_call st /\
    more_data st' = more_data st /\
    next_page_url st' = next_page_url st /\
    data st' = data st /\
    query_count st' = query_count st /\
    retry_count st' = retry_count st + 1.
Proof.
  intros H.
  assert (T : try_block a reply st = (Raise e, time_sleep (1 # 2) st)).
  { unfold try_block. rewrite bind_eq.
    pose proof (fetch_state a reply st) as S.
    destruct (fetch a reply st) as [[results | e0] st0]; cbn [fst snd] in *;
      [discriminate | ].
    inversion H; subst. reflexivity. }
  split; [unfold attempt_of; rewrite T; reflexivity | ].
  unfold iteration. rewrite T, retry_cases. cbv zeta.
  destruct (max_retries <=? _); eexists; (split; [reflexivity | ]);
    repeat split; reflexivity.
Qed.

Lemma failed_request_is_repeated_witness :
  attempt_of (args 5) (Reply 429 None)
    (final (loop (args 5) [ok (page (posts_from 0 3) (Some next_url))] initial_state))
  = Failed JSONDecodeError /\
  exists st',
    after (iteration (args 5) (Reply 429 None)
             (final (loop (args 5) [ok (page (posts_from 0 3) (Some next_url))]
                       initial_state))) = Some st' /\
    next_page_url st' = Some (PyStr next_url).
Proof.
  destruct (failed_request_is_repeated (args 5) (Reply 429 None)
              (final (loop (args 5) [ok (page (posts_from 0 3) (Some next_url))]
                        initial_state))
              JSONDecodeError eq_refl)
    as (Ha & st' & Hi & _ & _ & Hn & _).
  split; [exact Ha | ].
  exists st'. split; [exact Hi | ]. rewrite Hn. reflexivity.
Defined.
